(** * The table-driven engine of fsm::Fsm, embedded in Rocq

    The development follows src/include/fsm/fsm.hpp and src/src/fsm.cpp.
    The engine is a record of its data members; every member function is
    a computation that reads and writes that record, may raise a
    std::exception, and emits observable effects (a line handed to the log
    sink, an invocation of a user callback, a broadcast on the condition
    variable).

    The engine is embedded twice. The first embedding covers the whole
    class and takes the code around the engine to behave:
    - a user callback is a function of its arguments that returns or raises
      an exception of the std::exception family, the one kind both
      handlers of the engine name; it does not call back into the engine
      (under the mutex that would deadlock);
    - the log sink accepts every line and does not raise;
    - time is not measured: when a timed wait runs into its deadline is
      part of the schedule a wait is run against.
    The second embedding, module Unwinding, takes up the two guarded call
    sites again with callables as C++ allows them: a callback or the sink
    may leave by an object of any type, and a handler catches only what
    its clause names. What is said about faults of callbacks is said
    there; the two embeddings agree where callbacks behave. *)

From Stdlib Require Import ZArith String List Lia.
From stdpp Require Import base decidable countable finite gmap strings list.

Local Open Scope string_scope.

(** ** Enumerations (fsm.hpp) *)

Inductive SystemState :=
| IDLE
| MOVEIT_STARTING
| PLANNING
| EXECUTING
| OBSTACLE_DETECTED
| ERROR.

Inductive SystemEvent :=
| START_MOVEIT
| MOVEIT_READY
| MOVEIT_FAILED
| START_PLANNING
| PLANNING_SUCCESS
| PLANNING_FAILED
| EXECUTION_COMPLETE
| OBSTACLE_APPEARED
| OBSTACLE_CLEARED
| STOP_REQUEST
| ERROR_OCCURRED
| RESET_REQUEST.

#[global] Instance SystemState_eq_dec : EqDecision SystemState.
Proof. solve_decision. Defined.

#[global] Instance SystemEvent_eq_dec : EqDecision SystemEvent.
Proof. solve_decision. Defined.

(** The enumerators in declaration order, as [enum class] numbers them. *)
Definition all_states : list SystemState :=
  [IDLE; MOVEIT_STARTING; PLANNING; EXECUTING; OBSTACLE_DETECTED; ERROR].

Definition all_events : list SystemEvent :=
  [START_MOVEIT; MOVEIT_READY; MOVEIT_FAILED; START_PLANNING;
   PLANNING_SUCCESS; PLANNING_FAILED; EXECUTION_COMPLETE; OBSTACLE_APPEARED;
   OBSTACLE_CLEARED; STOP_REQUEST; ERROR_OCCURRED; RESET_REQUEST].

#[global, refine] Instance SystemState_finite : Finite SystemState :=
  {| enum := all_states |}.
Proof.
  - compute_done.
  - intros []; compute_done.
Defined.

#[global, refine] Instance SystemEvent_finite : Finite SystemEvent :=
  {| enum := all_events |}.
Proof.
  - compute_done.
  - intros []; compute_done.
Defined.

(** ** Stringification (fsm.cpp, stateToString and eventToString) *)

Definition stateToString (state : SystemState) : string :=
  match state with
  | IDLE => "IDLE"
  | MOVEIT_STARTING => "MOVEIT_STARTING"
  | PLANNING => "PLANNING"
  | EXECUTING => "EXECUTING"
  | OBSTACLE_DETECTED => "OBSTACLE_DETECTED"
  | ERROR => "ERROR"
  end.

Definition eventToString (event : SystemEvent) : string :=
  match event with
  | START_MOVEIT => "START_MOVEIT"
  | MOVEIT_READY => "MOVEIT_READY"
  | MOVEIT_FAILED => "MOVEIT_FAILED"
  | START_PLANNING => "START_PLANNING"
  | PLANNING_SUCCESS => "PLANNING_SUCCESS"
  | PLANNING_FAILED => "PLANNING_FAILED"
  | EXECUTION_COMPLETE => "EXECUTION_COMPLETE"
  | OBSTACLE_APPEARED => "OBSTACLE_APPEARED"
  | OBSTACLE_CLEARED => "OBSTACLE_CLEARED"
  | STOP_REQUEST => "STOP_REQUEST"
  | ERROR_OCCURRED => "ERROR_OCCURRED"
  | RESET_REQUEST => "RESET_REQUEST"
  end.

(** ** The transition table

    [std::unordered_map<SystemState, std::unordered_map<SystemEvent,
    SystemState>>]: a finite map of finite maps. *)

Abbreviation TransitionTable := (gmap SystemState (gmap SystemEvent SystemState)).

(** [table[from][event] = to]: [operator[]] creates the inner map when the
    outer key is new, then the inner slot is assigned. *)
Definition table_assign (from : SystemState) (event : SystemEvent)
    (to : SystemState) (table : TransitionTable) : TransitionTable :=
  <[from := <[event := to]> (default ∅ (table !! from))]> table.

(** [table.find(from)] followed by [->second.find(event)]. *)
Definition table_find (table : TransitionTable) (from : SystemState)
    (event : SystemEvent) : option SystemState :=
  match table !! from with
  | None => None
  | Some row => row !! event
  end.

(** Fsm::setupTransitionTable, the twenty-one assignments in source order. *)
Definition setupTransitionTable (t0 : TransitionTable) : TransitionTable :=
  let t := table_assign IDLE START_MOVEIT MOVEIT_STARTING t0 in
  let t := table_assign IDLE RESET_REQUEST IDLE t in
  let t := table_assign IDLE ERROR_OCCURRED ERROR t in
  let t := table_assign MOVEIT_STARTING MOVEIT_READY PLANNING t in
  let t := table_assign MOVEIT_STARTING MOVEIT_FAILED ERROR t in
  let t := table_assign MOVEIT_STARTING ERROR_OCCURRED ERROR t in
  let t := table_assign MOVEIT_STARTING STOP_REQUEST IDLE t in
  let t := table_assign PLANNING PLANNING_SUCCESS EXECUTING t in
  let t := table_assign PLANNING PLANNING_FAILED ERROR t in
  let t := table_assign PLANNING ERROR_OCCURRED ERROR t in
  let t := table_assign PLANNING OBSTACLE_APPEARED OBSTACLE_DETECTED t in
  let t := table_assign PLANNING STOP_REQUEST IDLE t in
  let t := table_assign EXECUTING EXECUTION_COMPLETE IDLE t in
  let t := table_assign EXECUTING OBSTACLE_APPEARED OBSTACLE_DETECTED t in
  let t := table_assign EXECUTING STOP_REQUEST IDLE t in
  let t := table_assign EXECUTING ERROR_OCCURRED ERROR t in
  let t := table_assign OBSTACLE_DETECTED START_PLANNING PLANNING t in
  let t := table_assign OBSTACLE_DETECTED STOP_REQUEST IDLE t in
  let t := table_assign OBSTACLE_DETECTED ERROR_OCCURRED ERROR t in
  let t := table_assign ERROR RESET_REQUEST IDLE t in
  let t := table_assign ERROR STOP_REQUEST IDLE t in
  t.

(** The table every engine holds: the constructor runs
    setupTransitionTable on the empty member. *)
Definition the_table : TransitionTable := setupTransitionTable ∅.

(** Comparing tables: look through everything else before opening the
    table itself, so that a table is recognised by name, not by content. *)
Strategy 10 [the_table].
Strategy 20 [setupTransitionTable].

(** ** Exceptions, results and observable effects *)

(** The exception object the engine's handlers bind:
    [catch (const std::exception& e)], read through [e.what()]. *)
Record std_exception := { what : string }.

(** Calling an empty [std::function] raises [std::bad_function_call], a
    [std::exception]. *)
Definition bad_function_call : std_exception :=
  {| what := "bad_function_call" |}.

(** How a call ends: it returns a value, or it is left by an exception
    object that [catch (const std::exception&)] matches. *)
Inductive result (A : Type) :=
| Ret (a : A)
| Throw (e : std_exception).

Arguments Ret {A} a.
Arguments Throw {A} e.

(** A [std::function] object: empty, or holding a callable. *)
Abbreviation std_function Sig := (option Sig).

Abbreviation StateChangeCallback :=
  (std_function (SystemState -> SystemState -> result unit)).

Abbreviation EventCallback :=
  (std_function (SystemEvent -> result bool)).

(** A log sink is only ever handed lines; it is known by its identity. The
    default sink is the member function defaultLogCallback, which prints
    the line to the console. *)
Inductive LogSink :=
| defaultLogCallback
| userLogCallback (id : nat).

Abbreviation LogCallback := (std_function LogSink).

(** What the engine does to the outside world. The line of [ELog] is the
    argument of logMessage; the wall-clock prefix that logMessage puts in
    front of it is left out. *)
Inductive effect :=
| ELog (sink : LogSink) (message : string)
| EEventCallback (event : SystemEvent)
| EStateChangeCallback (old_state new_state : SystemState)
| ENotifyAll.

(** ** The engine (class Fsm, data members)

    [mutex_] and [cv_] carry no data of their own: the mutex makes each
    public call one atomic step, which is how calls are composed below,
    and the broadcasts on the condition variable are effects. *)
Record Fsm := mkFsm {
  thread_safe_ : bool;
  running_ : bool;
  current_state_ : SystemState;
  previous_state_ : SystemState;
  transition_table_ : gmap SystemState (gmap SystemEvent SystemState);
  state_change_callback_ : StateChangeCallback;
  event_callbacks_ : gmap SystemEvent EventCallback;
  log_callback_ : LogCallback;
  has_original_trajectory_ : bool;
  original_trajectory_data_ : string;
  execution_progress_ : N
}.

Definition set_thread_safe (b : bool) (f : Fsm) : Fsm :=
  mkFsm b (running_ f) (current_state_ f) (previous_state_ f)
    (transition_table_ f) (state_change_callback_ f) (event_callbacks_ f)
    (log_callback_ f) (has_original_trajectory_ f)
    (original_trajectory_data_ f) (execution_progress_ f).

Definition set_running (b : bool) (f : Fsm) : Fsm :=
  mkFsm (thread_safe_ f) b (current_state_ f) (previous_state_ f)
    (transition_table_ f) (state_change_callback_ f) (event_callbacks_ f)
    (log_callback_ f) (has_original_trajectory_ f)
    (original_trajectory_data_ f) (execution_progress_ f).

Definition set_current_state (s : SystemState) (f : Fsm) : Fsm :=
  mkFsm (thread_safe_ f) (running_ f) s (previous_state_ f)
    (transition_table_ f) (state_change_callback_ f) (event_callbacks_ f)
    (log_callback_ f) (has_original_trajectory_ f)
    (original_trajectory_data_ f) (execution_progress_ f).

Definition set_previous_state (s : SystemState) (f : Fsm) : Fsm :=
  mkFsm (thread_safe_ f) (running_ f) (current_state_ f) s
    (transition_table_ f) (state_change_callback_ f) (event_callbacks_ f)
    (log_callback_ f) (has_original_trajectory_ f)
    (original_trajectory_data_ f) (execution_progress_ f).

Definition set_state_change_callback (cb : StateChangeCallback) (f : Fsm)
    : Fsm :=
  mkFsm (thread_safe_ f) (running_ f) (current_state_ f) (previous_state_ f)
    (transition_table_ f) cb (event_callbacks_ f)
    (log_callback_ f) (has_original_trajectory_ f)
    (original_trajectory_data_ f) (execution_progress_ f).

Definition set_event_callbacks (m : gmap SystemEvent EventCallback)
    (f : Fsm) : Fsm :=
  mkFsm (thread_safe_ f) (running_ f) (current_state_ f) (previous_state_ f)
    (transition_table_ f) (state_change_callback_ f) m
    (log_callback_ f) (has_original_trajectory_ f)
    (original_trajectory_data_ f) (execution_progress_ f).

Definition set_log_callback (cb : LogCallback) (f : Fsm) : Fsm :=
  mkFsm (thread_safe_ f) (running_ f) (current_state_ f) (previous_state_ f)
    (transition_table_ f) (state_change_callback_ f) (event_callbacks_ f)
    cb (has_original_trajectory_ f)
    (original_trajectory_data_ f) (execution_progress_ f).

Definition set_execution_progress (n : N) (f : Fsm) : Fsm :=
  mkFsm (thread_safe_ f) (running_ f) (current_state_ f) (previous_state_ f)
    (transition_table_ f) (state_change_callback_ f) (event_callbacks_ f)
    (log_callback_ f) (has_original_trajectory_ f)
    (original_trajectory_data_ f) n.

(** ** Member functions as computations on the engine *)

Module Import Exec.

(** A member function: from the engine before the call to how the call
    ends, the engine after it, and the effects it emitted in order. *)
Definition M (A : Type) : Type := Fsm -> result A * Fsm * list effect.

Definition ret {A} (a : A) : M A := fun f => (Ret a, f, []).

Definition throw {A} (e : std_exception) : M A := fun f => (Throw e, f, []).

(** Sequencing: an exception skips the rest. *)
Definition bind {A B} (m : M A) (k : A -> M B) : M B :=
  fun f =>
    match m f with
    | (Ret a, f1, t1) =>
        match k a f1 with
        | (r, f2, t2) => (r, f2, (t1 ++ t2)%list)
        end
    | (Throw e, f1, t1) => (Throw e, f1, t1)
    end.

(** [try { m } catch (const std::exception& e) { h e }]. *)
Definition try_catch {A} (m : M A) (h : std_exception -> M A) : M A :=
  fun f =>
    match m f with
    | (Ret a, f1, t1) => (Ret a, f1, t1)
    | (Throw e, f1, t1) =>
        match h e f1 with
        | (r, f2, t2) => (r, f2, (t1 ++ t2)%list)
        end
    end.

Definition get : M Fsm := fun f => (Ret f, f, []).

Definition modify (g : Fsm -> Fsm) : M unit := fun f => (Ret tt, g f, []).

Definition emit (e : effect) : M unit := fun f => (Ret tt, f, [e]).

Definition outcome {A} (x : result A * Fsm * list effect) : result A :=
  fst (fst x).

Definition engine_after {A} (x : result A * Fsm * list effect) : Fsm :=
  snd (fst x).

Definition effects {A} (x : result A * Fsm * list effect) : list effect :=
  snd x.

End Exec.

Notation "x <- m ;; k" := (bind m (fun x => k))
  (at level 100, m at next level, right associativity).
Notation "m ;; k" := (bind m (fun _ => k))
  (at level 100, right associativity).

(** Fsm::getOptionalLock. In synchronized mode the returned guard holds
    [mutex_] until the caller's scope ends, on every exit path; the body of
    the caller is then one atomic step, which is what a computation of
    type [M] is. The guard itself changes no data member. *)
Definition getOptionalLock {A} (body : M A) : M A := body.

(** Fsm::logMessage: a line goes to the sink only if one is installed. *)
Definition logMessage (message : string) : M unit :=
  f <- get ;;
  match log_callback_ f with
  | Some sink => emit (ELog sink message)
  | None => ret tt
  end.

(** Invoking [state_change_callback_(old_state, new_state)] on a non-empty
    function object. *)
Definition call_state_change
    (cb : SystemState -> SystemState -> result unit)
    (old_state new_state : SystemState) : M unit :=
  fun f => (cb old_state new_state, f, [EStateChangeCallback old_state new_state]).

(** Invoking [event_callbacks_[event](event)]: an empty function object
    raises [std::bad_function_call] and runs no user code. *)
Definition call_event_callback (cb : EventCallback) (event : SystemEvent)
    : M bool :=
  match cb with
  | Some g => fun f => (g event, f, [EEventCallback event])
  | None => throw bad_function_call
  end.

(** [cv_.notify_all()]. *)
Definition notify_all : M unit := emit ENotifyAll.

(** Fsm::Fsm. [has_original_trajectory_] has no initializer, so its value
    is whatever the storage held. *)
Definition Fsm_new (indeterminate : bool) : Fsm :=
  {| thread_safe_ := false;
     running_ := false;
     current_state_ := IDLE;
     previous_state_ := IDLE;
     transition_table_ := setupTransitionTable ∅;
     state_change_callback_ := None;
     event_callbacks_ := ∅;
     log_callback_ := Some defaultLogCallback;
     has_original_trajectory_ := indeterminate;
     original_trajectory_data_ := "";
     execution_progress_ := 0%N |}.

(** Fsm::getCurrentStateNameInternal *)
Definition getCurrentStateNameInternal : M string :=
  f <- get ;; ret (stateToString (current_state_ f)).

(** Fsm::isValidTransition *)
Definition isValidTransition (from to : SystemState) (event : SystemEvent)
    : M bool :=
  f <- get ;;
  match transition_table_ f !! from with
  | None => ret false
  | Some row =>
      match row !! event with
      | None => ret false
      | Some target => ret (bool_decide (target = to))
      end
  end.

(** Fsm::onStateChanged *)
Definition onStateChanged (old_state new_state : SystemState) : M unit :=
  f <- get ;;
  match state_change_callback_ f with
  | Some cb =>
      try_catch (call_state_change cb old_state new_state)
        (fun e => logMessage ("状态变化回调异常: " ++ what e))
  | None => ret tt
  end ;;
  notify_all.

(** Fsm::executeTransition *)
Definition executeTransition (from to : SystemState) (event : SystemEvent)
    : M bool :=
  valid <- isValidTransition from to event ;;
  if negb valid then
    logMessage ("无效转换: " ++ stateToString from ++ " -> " ++ stateToString to) ;;
    ret false
  else
    modify (fun f => set_previous_state (current_state_ f) f) ;;
    modify (set_current_state to) ;;
    logMessage ("状态转换: " ++ stateToString from ++ " -> " ++ stateToString to) ;;
    f <- get ;;
    onStateChanged (previous_state_ f) (current_state_ f) ;;
    ret true.

(** Fsm::triggerEventInternal. The [try] block either returns from the
    function ([Some r]) or falls through to the commit ([None]). *)
Definition triggerEventInternal (event : SystemEvent) (data : string)
    : M bool :=
  f <- get ;;
  match transition_table_ f !! current_state_ f with
  | None =>
      name <- getCurrentStateNameInternal ;;
      logMessage ("未找到状态 " ++ name ++ " 的转换表") ;;
      ret false
  | Some row =>
      match row !! event with
      | None =>
          name <- getCurrentStateNameInternal ;;
          logMessage ("状态 " ++ name ++ " 不支持事件 " ++ eventToString event) ;;
          ret false
      | Some target_state =>
          returned <-
            match event_callbacks_ f !! event with
            | Some cb =>
                try_catch
                  (ok <- call_event_callback cb event ;;
                   if negb ok then
                     logMessage ("Event callbacks failed: " ++ eventToString event) ;;
                     ret (Some false)
                   else ret None)
                  (fun e =>
                     logMessage ("Event callbacks are abnormal: " ++ what e) ;;
                     ret (Some false))
            | None => ret None
            end ;;
          match returned with
          | Some r => ret r
          | None =>
              f' <- get ;;
              executeTransition (current_state_ f') target_state event
          end
      end
  end.

(** Fsm::triggerEvent(event, data) *)
Definition triggerEvent_data (event : SystemEvent) (data : string) : M bool :=
  getOptionalLock (triggerEventInternal event data).

(** Fsm::triggerEvent(event) *)
Definition triggerEvent (event : SystemEvent) : M bool :=
  triggerEvent_data event "".

(** Fsm::initialize *)
Definition initialize : M bool :=
  getOptionalLock
    (modify (set_current_state IDLE) ;;
     modify (set_previous_state IDLE) ;;
     modify (set_running true) ;;
     modify (set_execution_progress 0%N) ;;
     logMessage "状态机初始化" ;;
     ret true).

(** Fsm::start *)
Definition start : M unit :=
  getOptionalLock
    (logMessage "启动状态机" ;;
     modify (set_running true) ;;
     modify (set_current_state IDLE)).

(** Fsm::stop: the result of triggerEvent is dropped. *)
Definition stop : M unit :=
  triggerEvent STOP_REQUEST ;; ret tt.

(** Fsm::reset *)
Definition reset : M unit :=
  getOptionalLock
    (logMessage "重置状态机" ;;
     modify (fun f => set_previous_state (current_state_ f) f) ;;
     modify (set_current_state IDLE) ;;
     f <- get ;;
     onStateChanged (previous_state_ f) (current_state_ f)).

(** Fsm::shutdown *)
Definition shutdown : M unit :=
  getOptionalLock
    (logMessage "关闭状态机" ;;
     modify (set_running false) ;;
     notify_all).

(** Fsm::canTransitionInternal *)
Definition canTransitionInternal (event : SystemEvent) : M bool :=
  f <- get ;;
  match transition_table_ f !! current_state_ f with
  | None => ret false
  | Some row => ret (bool_decide (is_Some (row !! event)))
  end.

(** Fsm::canTransition *)
Definition canTransition (event : SystemEvent) : M bool :=
  getOptionalLock (canTransitionInternal event).

(** Fsm::getCurrentState *)
Definition getCurrentState : M SystemState :=
  getOptionalLock (f <- get ;; ret (current_state_ f)).

(** Fsm::getCurrentStateName *)
Definition getCurrentStateName : M string :=
  getOptionalLock getCurrentStateNameInternal.

(** Fsm::isInState *)
Definition isInState (state : SystemState) : M bool :=
  current <- getCurrentState ;; ret (bool_decide (current = state)).

(** Fsm::setStateChangeCallback *)
Definition setStateChangeCallback (callback : StateChangeCallback) : M unit :=
  getOptionalLock
    (modify (set_state_change_callback callback) ;;
     logMessage "State change callback registered").

(** Fsm::setEventCallback *)
Definition setEventCallback (event : SystemEvent) (callback : EventCallback)
    : M unit :=
  getOptionalLock
    (modify (fun f =>
       set_event_callbacks (<[event := callback]> (event_callbacks_ f)) f) ;;
     logMessage ("Register the event callback: " ++ eventToString event)).

(** Fsm::setLogCallback *)
Definition setLogCallback (callback : LogCallback) : M unit :=
  getOptionalLock (modify (set_log_callback callback)).

(** Fsm::enableThreadSafety *)
Definition enableThreadSafety (enable : bool) : M unit :=
  modify (set_thread_safe enable).

(** ** Public calls and the blocking wait *)

(** What a public member function hands back. *)
Inductive value :=
| VVoid
| VBool (b : bool)
| VState (s : SystemState)
| VString (s : string).

(** The public member functions other than waitForState, with their
    arguments. *)
Inductive call :=
| c_initialize
| c_start
| c_stop
| c_reset
| c_shutdown
| c_triggerEvent (event : SystemEvent)
| c_triggerEvent_data (event : SystemEvent) (data : string)
| c_getCurrentState
| c_getCurrentStateName
| c_isInState (state : SystemState)
| c_canTransition (event : SystemEvent)
| c_setStateChangeCallback (callback : StateChangeCallback)
| c_setEventCallback (event : SystemEvent) (callback : EventCallback)
| c_setLogCallback (callback : LogCallback)
| c_enableThreadSafety (enable : bool)
| c_logMessage (message : string).

Definition exec_call (c : call) : M value :=
  match c with
  | c_initialize => b <- initialize ;; ret (VBool b)
  | c_start => start ;; ret VVoid
  | c_stop => stop ;; ret VVoid
  | c_reset => reset ;; ret VVoid
  | c_shutdown => shutdown ;; ret VVoid
  | c_triggerEvent event => b <- triggerEvent event ;; ret (VBool b)
  | c_triggerEvent_data event data =>
      b <- triggerEvent_data event data ;; ret (VBool b)
  | c_getCurrentState => s <- getCurrentState ;; ret (VState s)
  | c_getCurrentStateName => n <- getCurrentStateName ;; ret (VString n)
  | c_isInState state => b <- isInState state ;; ret (VBool b)
  | c_canTransition event => b <- canTransition event ;; ret (VBool b)
  | c_setStateChangeCallback callback =>
      setStateChangeCallback callback ;; ret VVoid
  | c_setEventCallback event callback =>
      setEventCallback event callback ;; ret VVoid
  | c_setLogCallback callback => setLogCallback callback ;; ret VVoid
  | c_enableThreadSafety enable => enableThreadSafety enable ;; ret VVoid
  | c_logMessage message => logMessage message ;; ret VVoid
  end.

(** Calls made one after another on the same engine, by any threads; each
    is atomic. The engine is left as the calls leave it and the effects are
    those of all of them, whatever each one handed back to its caller. *)
Fixpoint run_calls (cs : list call) (f : Fsm) : Fsm * list effect :=
  match cs with
  | [] => (f, [])
  | c :: rest =>
      match exec_call c f with
      | (_, f1, t1) =>
          match run_calls rest f1 with
          | (f2, t2) => (f2, (t1 ++ t2)%list)
          end
      end
  end.

(** [std::cv_status] *)
Inductive cv_status := cv_no_timeout | cv_timeout.

(** One resumption of a thread parked on [cv_]: while it was parked (the
    mutex released) the other threads made the calls [meanwhile]; then it
    was resumed, by a broadcast, spuriously, or because its deadline
    passed, and took the mutex again. *)
Record wake := { meanwhile : list call; status : cv_status }.

(** [cv_.wait(lock, pred)], that is [while (!pred()) wait(lock);]. The
    schedule lists the resumptions; when it runs out with the predicate
    still false the thread is still parked ([None]). A wait without
    deadline treats every resumption alike. *)
Fixpoint cv_wait (pred : Fsm -> bool) (sched : list wake) (f : Fsm)
    : option (Fsm * list effect) :=
  if pred f then Some (f, [])
  else
    match sched with
    | [] => None
    | w :: rest =>
        match run_calls (meanwhile w) f with
        | (f1, t1) =>
            match cv_wait pred rest f1 with
            | Some (f2, t2) => Some (f2, (t1 ++ t2)%list)
            | None => None
            end
        end
    end.

(** [cv_.wait_for(lock, rel_time, pred)], that is
    [while (!pred()) if (wait_until(lock, deadline) == cv_status::timeout)
    return pred(); return true;]. *)
Fixpoint cv_wait_for (pred : Fsm -> bool) (sched : list wake) (f : Fsm)
    : option (bool * Fsm * list effect) :=
  if pred f then Some (true, f, [])
  else
    match sched with
    | [] => None
    | w :: rest =>
        match run_calls (meanwhile w) f with
        | (f1, t1) =>
            match status w with
            | cv_timeout => Some (pred f1, f1, t1)
            | cv_no_timeout =>
                match cv_wait_for pred rest f1 with
                | Some (b, f2, t2) => Some (b, f2, (t1 ++ t2)%list)
                | None => None
                end
            end
        end
    end.

(** The predicate both waits of waitForState pass:
    [current_state_ == target_state || !running_]. *)
Definition wait_pred (target_state : SystemState) (f : Fsm) : bool :=
  bool_decide (current_state_ f = target_state) || negb (running_ f).

(** Fsm::waitForState. [timeout] is [timeout.count()], in milliseconds;
    [sched] is what happens around the calling thread while it is parked.
    The result is [None] when the schedule ends with the thread parked. *)
Definition waitForState (target_state : SystemState) (timeout : Z)
    (sched : list wake) (f : Fsm) : option (bool * Fsm * list effect) :=
  if negb (thread_safe_ f) then
    match logMessage "The wait state feature requires thread safety to be enabled" f with
    | (_, f1, t1) => Some (false, f1, t1)
    end
  else if bool_decide (current_state_ f = target_state) then
    Some (true, f, [])
  else if (0 <? timeout)%Z then
    cv_wait_for (wait_pred target_state) sched f
  else
    match cv_wait (wait_pred target_state) sched f with
    | Some (f1, t1) =>
        Some (bool_decide (current_state_ f1 = target_state), f1, t1)
    | None => None
    end.

(** Engines that a program can hold: built by the constructor and then
    driven through public operations only. *)
Inductive reachable : Fsm -> Prop :=
| reachable_new (indeterminate : bool) : reachable (Fsm_new indeterminate)
| reachable_call (c : call) (f : Fsm) :
    reachable f -> reachable (engine_after (exec_call c f))
| reachable_wait (target_state : SystemState) (timeout : Z)
    (sched : list wake) (f f' : Fsm) (b : bool) (t : list effect) :
    reachable f ->
    waitForState target_state timeout sched f = Some (b, f', t) ->
    reachable f'.

(** ** Reading a list of effects *)

(** The invocations of the state-change callback, as (old, new) pairs. *)
Fixpoint state_change_calls (t : list effect)
    : list (SystemState * SystemState) :=
  match t with
  | [] => []
  | EStateChangeCallback o n :: rest => (o, n) :: state_change_calls rest
  | _ :: rest => state_change_calls rest
  end.

(** The number of broadcasts on the condition variable. *)
Fixpoint wakes (t : list effect) : nat :=
  match t with
  | [] => 0
  | ENotifyAll :: rest => S (wakes rest)
  | _ :: rest => wakes rest
  end.

(** The lines handed to the log sink. *)
Fixpoint log_lines (t : list effect) : list string :=
  match t with
  | [] => []
  | ELog _ m :: rest => m :: log_lines rest
  | _ :: rest => log_lines rest
  end.

(** A notification is a state-change callback invocation or a broadcast. *)
Definition is_notification (e : effect) : bool :=
  match e with
  | EStateChangeCallback _ _ | ENotifyAll => true
  | _ => false
  end.

Definition notifications (t : list effect) : list effect :=
  List.filter is_notification t.

(** ** Vocabulary for stating what a call does *)

(** What logMessage emits on engine [f]. *)
Definition log_effect (f : Fsm) (message : string) : list effect :=
  match log_callback_ f with
  | Some sink => [ELog sink message]
  | None => []
  end.

(** What invoking a registered gating callback yields. *)
Definition invoke (cb : EventCallback) (event : SystemEvent) : result bool :=
  match cb with
  | Some g => g event
  | None => Throw bad_function_call
  end.

(** The effects of the guarded callback invocation inside onStateChanged. *)
Definition state_change_effects (f : Fsm) (old_state new_state : SystemState)
    : list effect :=
  match state_change_callback_ f with
  | Some cb =>
      EStateChangeCallback old_state new_state ::
      match cb old_state new_state with
      | Ret _ => []
      | Throw e => log_effect f ("状态变化回调异常: " ++ what e)
      end
  | None => []
  end.

(** The engine after a committed transition to [to]. *)
Definition commit (to : SystemState) (f : Fsm) : Fsm :=
  set_current_state to (set_previous_state (current_state_ f) f).

(** The gate of [event] lets a transition through: no gating callback is
    registered for it, or the registered one returns true. *)
Definition gate_open (f : Fsm) (event : SystemEvent) : Prop :=
  match event_callbacks_ f !! event with
  | None => True
  | Some cb => invoke cb event = Ret true
  end.

(** The transition table as the specification tabulates it (section 4,
    "Transition table (normative)"), row by row. *)
Definition spec_table (from : SystemState) (event : SystemEvent)
    : option SystemState :=
  match from, event with
  | IDLE, START_MOVEIT => Some MOVEIT_STARTING
  | IDLE, RESET_REQUEST => Some IDLE
  | IDLE, ERROR_OCCURRED => Some ERROR
  | MOVEIT_STARTING, MOVEIT_READY => Some PLANNING
  | MOVEIT_STARTING, MOVEIT_FAILED => Some ERROR
  | MOVEIT_STARTING, ERROR_OCCURRED => Some ERROR
  | MOVEIT_STARTING, STOP_REQUEST => Some IDLE
  | PLANNING, PLANNING_SUCCESS => Some EXECUTING
  | PLANNING, PLANNING_FAILED => Some ERROR
  | PLANNING, ERROR_OCCURRED => Some ERROR
  | PLANNING, OBSTACLE_APPEARED => Some OBSTACLE_DETECTED
  | PLANNING, STOP_REQUEST => Some IDLE
  | EXECUTING, EXECUTION_COMPLETE => Some IDLE
  | EXECUTING, OBSTACLE_APPEARED => Some OBSTACLE_DETECTED
  | EXECUTING, STOP_REQUEST => Some IDLE
  | EXECUTING, ERROR_OCCURRED => Some ERROR
  | OBSTACLE_DETECTED, START_PLANNING => Some PLANNING
  | OBSTACLE_DETECTED, STOP_REQUEST => Some IDLE
  | OBSTACLE_DETECTED, ERROR_OCCURRED => Some ERROR
  | ERROR, RESET_REQUEST => Some IDLE
  | ERROR, STOP_REQUEST => Some IDLE
  | _, _ => None
  end.

(** The effects of consulting the gate of [event]: user code runs only
    when a non-empty callback is registered. *)
Definition gate_effects (f : Fsm) (event : SystemEvent) : list effect :=
  match event_callbacks_ f !! event with
  | Some (Some _) => [EEventCallback event]
  | _ => []
  end.

(** The event a call raises through the transition path, if any: stop
    raises STOP_REQUEST. *)
Definition event_of_call (c : call) : option SystemEvent :=
  match c with
  | c_stop => Some STOP_REQUEST
  | c_triggerEvent event => Some event
  | c_triggerEvent_data event _ => Some event
  | _ => None
  end.

(** Call [c] on engine [f] commits a transition. *)
Definition commits (c : call) (f : Fsm) : Prop :=
  exists event,
    event_of_call c = Some event /\
    outcome (triggerEvent event f) = Ret true /\
    is_Some (table_find (transition_table_ f) (current_state_ f) event).

(** Some engines to run the results on. *)
Definition fresh : Fsm := engine_after (initialize (Fsm_new false)).

Definition in_state (s : SystemState) : Fsm := set_current_state s fresh.

Definition veto : EventCallback := Some (fun _ => Ret false).

Definition faulty_gate : EventCallback :=
  Some (fun _ => Throw {| what := "gate fault" |}).

Definition faulty_observer : StateChangeCallback :=
  Some (fun _ _ => Throw {| what := "observer fault" |}).

Definition synchronized : Fsm := set_thread_safe true fresh.

(** ** Further vocabulary *)

(** The calls that only read the engine. *)
Definition is_query (c : call) : bool :=
  match c with
  | c_getCurrentState | c_getCurrentStateName
  | c_isInState _ | c_canTransition _ => true
  | _ => false
  end.

(** The invocations of event-gating callbacks. *)
Fixpoint event_callback_calls (t : list effect) : list SystemEvent :=
  match t with
  | [] => []
  | EEventCallback e :: rest => e :: event_callback_calls rest
  | _ :: rest => event_callback_calls rest
  end.

(** One attempt to raise [event] on [f], laid out case by case: no row for
    the current state, no entry for the event, a veto, a fault of the
    gate, a commit. *)
Definition trigger_cases (event : SystemEvent) (f : Fsm)
    : result bool * Fsm * list effect :=
  let committed to :=
    (Ret true, commit to f,
     (gate_effects f event
      ++ log_effect f ("状态转换: " ++ stateToString (current_state_ f)
                       ++ " -> " ++ stateToString to)
      ++ state_change_effects f (current_state_ f) to ++ [ENotifyAll])%list) in
  match transition_table_ f !! current_state_ f with
  | None =>
      (Ret false, f,
       log_effect f ("未找到状态 " ++ stateToString (current_state_ f)
                     ++ " 的转换表"))
  | Some row =>
      match row !! event with
      | None =>
          (Ret false, f,
           log_effect f ("状态 " ++ stateToString (current_state_ f)
                         ++ " 不支持事件 " ++ eventToString event))
      | Some to =>
          match event_callbacks_ f !! event with
          | None => committed to
          | Some cb =>
              match invoke cb event with
              | Ret true => committed to
              | Ret false =>
                  (Ret false, f,
                   (gate_effects f event
                    ++ log_effect f ("Event callbacks failed: "
                                     ++ eventToString event))%list)
              | Throw e =>
                  (Ret false, f,
                   (gate_effects f event
                    ++ log_effect f ("Event callbacks are abnormal: "
                                     ++ what e))%list)
              end
          end
      end
  end.

(** The calls the other threads made up to the [n]-th resumption of a
    parked thread. *)
Definition calls_until (n : nat) (sched : list wake) : list call :=
  concat (map meanwhile (take n sched)).

(** A walk of events from IDLE to each state. *)
Definition walk_to (s : SystemState) : list SystemEvent :=
  match s with
  | IDLE => []
  | MOVEIT_STARTING => [START_MOVEIT]
  | PLANNING => [START_MOVEIT; MOVEIT_READY]
  | EXECUTING => [START_MOVEIT; MOVEIT_READY; PLANNING_SUCCESS]
  | OBSTACLE_DETECTED => [START_MOVEIT; MOVEIT_READY; OBSTACLE_APPEARED]
  | ERROR => [ERROR_OCCURRED]
  end.

(** An engine with the fixed table, no gating callback at all, in state
    [s]. *)
Definition plain_in (s : SystemState) (f : Fsm) : Prop :=
  transition_table_ f = the_table /\
  event_callbacks_ f = ∅ /\
  current_state_ f = s.

(** The sinks that were handed a line. *)
Fixpoint sinks_used (t : list effect) : list LogSink :=
  match t with
  | [] => []
  | ELog sink _ :: rest => sink :: sinks_used rest
  | _ :: rest => sinks_used rest
  end.

(** ** Unwinding: callables that may throw anything

    The engine once more, for the two guarded call sites and what runs
    under them, with user code taken as C++ allows it: a callable may leave
    by an object of any type, and the log sink is a callable too. The
    handlers of the engine are [catch (const std::exception& e)]: they
    match objects of the std::exception family and let every other object
    pass. *)

Module Unwinding.

(** What a [throw] expression sends up: an object of the std::exception
    family, or an object of some other type, such as the [int] of
    [throw 42]. *)
Inductive thrown :=
| std_object (e : std_exception)
| other_object (value : Z).

(** How a call ends. *)
Inductive ended (A : Type) :=
| returned (a : A)
| raised (x : thrown).

Arguments returned {A} a.
Arguments raised {A} x.

(** A log sink: which one it is, and how handing it a line ends. *)
Record Sink := { sink_id : LogSink; accept : string -> ended unit }.

(** class Fsm, data members, with callables of the wider kind. *)
Record Fsm := mkFsm {
  thread_safe_ : bool;
  running_ : bool;
  current_state_ : SystemState;
  previous_state_ : SystemState;
  transition_table_ : gmap SystemState (gmap SystemEvent SystemState);
  state_change_callback_ :
    std_function (SystemState -> SystemState -> ended unit);
  event_callbacks_ : gmap SystemEvent (std_function (SystemEvent -> ended bool));
  log_callback_ : std_function Sink;
  has_original_trajectory_ : bool;
  original_trajectory_data_ : string;
  execution_progress_ : N
}.

Definition set_current_state (s : SystemState) (f : Fsm) : Fsm :=
  mkFsm (thread_safe_ f) (running_ f) s (previous_state_ f)
    (transition_table_ f) (state_change_callback_ f) (event_callbacks_ f)
    (log_callback_ f) (has_original_trajectory_ f)
    (original_trajectory_data_ f) (execution_progress_ f).

Definition set_previous_state (s : SystemState) (f : Fsm) : Fsm :=
  mkFsm (thread_safe_ f) (running_ f) (current_state_ f) s
    (transition_table_ f) (state_change_callback_ f) (event_callbacks_ f)
    (log_callback_ f) (has_original_trajectory_ f)
    (original_trajectory_data_ f) (execution_progress_ f).

(** A member function: how the call ends, the engine after it, and the
    effects it emitted in order. *)
Definition M (A : Type) : Type := Fsm -> ended A * Fsm * list effect.

Definition ret {A} (a : A) : M A := fun f => (returned a, f, []).

Definition throw {A} (x : thrown) : M A := fun f => (raised x, f, []).

(** Sequencing: an object on its way up skips the rest. *)
Definition bind {A B} (m : M A) (k : A -> M B) : M B :=
  fun f =>
    match m f with
    | (returned a, f1, t1) =>
        match k a f1 with
        | (r, f2, t2) => (r, f2, (t1 ++ t2)%list)
        end
    | (raised x, f1, t1) => (raised x, f1, t1)
    end.

(** [try { m } catch (const std::exception& e) { h e }]: an object of
    another type is not matched and goes on up. *)
Definition try_catch {A} (m : M A) (h : std_exception -> M A) : M A :=
  fun f =>
    match m f with
    | (returned a, f1, t1) => (returned a, f1, t1)
    | (raised (std_object e), f1, t1) =>
        match h e f1 with
        | (r, f2, t2) => (r, f2, (t1 ++ t2)%list)
        end
    | (raised (other_object v), f1, t1) => (raised (other_object v), f1, t1)
    end.

Definition get : M Fsm := fun f => (returned f, f, []).

Definition modify (g : Fsm -> Fsm) : M unit := fun f => (returned tt, g f, []).

Definition emit (e : effect) : M unit := fun f => (returned tt, f, [e]).

Definition outcome {A} (x : ended A * Fsm * list effect) : ended A :=
  fst (fst x).

Definition engine_after {A} (x : ended A * Fsm * list effect) : Fsm :=
  snd (fst x).

Definition effects {A} (x : ended A * Fsm * list effect) : list effect :=
  snd x.

Notation "x <~ m ;> k" := (bind m (fun x => k))
  (at level 100, m at next level, right associativity).
Notation "m ;> k" := (bind m (fun _ => k))
  (at level 100, right associativity).

(** [log_callback_(ss.str())]: the sink is handed the line, and may raise. *)
Definition call_sink (sink : Sink) (message : string) : M unit :=
  fun f => (accept sink message, f, [ELog (sink_id sink) message]).

(** Fsm::logMessage. The call of the sink is not guarded. *)
Definition logMessage (message : string) : M unit :=
  f <~ get ;>
  match log_callback_ f with
  | Some sink => call_sink sink message
  | None => ret tt
  end.

Definition call_state_change
    (cb : SystemState -> SystemState -> ended unit)
    (old_state new_state : SystemState) : M unit :=
  fun f => (cb old_state new_state, f, [EStateChangeCallback old_state new_state]).

Definition call_event_callback
    (cb : std_function (SystemEvent -> ended bool)) (event : SystemEvent)
    : M bool :=
  match cb with
  | Some g => fun f => (g event, f, [EEventCallback event])
  | None => throw (std_object bad_function_call)
  end.

Definition notify_all : M unit := emit ENotifyAll.

(** Fsm::getCurrentStateNameInternal *)
Definition getCurrentStateNameInternal : M string :=
  f <~ get ;> ret (stateToString (current_state_ f)).

(** Fsm::isValidTransition *)
Definition isValidTransition (from to : SystemState) (event : SystemEvent)
    : M bool :=
  f <~ get ;>
  match transition_table_ f !! from with
  | None => ret false
  | Some row =>
      match row !! event with
      | None => ret false
      | Some target => ret (bool_decide (target = to))
      end
  end.

(** Fsm::onStateChanged *)
Definition onStateChanged (old_state new_state : SystemState) : M unit :=
  f <~ get ;>
  match state_change_callback_ f with
  | Some cb =>
      try_catch (call_state_change cb old_state new_state)
        (fun e => logMessage ("状态变化回调异常: " ++ what e))
  | None => ret tt
  end ;>
  notify_all.

(** Fsm::executeTransition *)
Definition executeTransition (from to : SystemState) (event : SystemEvent)
    : M bool :=
  valid <~ isValidTransition from to event ;>
  if negb valid then
    logMessage ("无效转换: " ++ stateToString from ++ " -> " ++ stateToString to) ;>
    ret false
  else
    modify (fun f => set_previous_state (current_state_ f) f) ;>
    modify (set_current_state to) ;>
    logMessage ("状态转换: " ++ stateToString from ++ " -> " ++ stateToString to) ;>
    f <~ get ;>
    onStateChanged (previous_state_ f) (current_state_ f) ;>
    ret true.

(** Fsm::triggerEventInternal *)
Definition triggerEventInternal (event : SystemEvent) (data : string)
    : M bool :=
  f <~ get ;>
  match transition_table_ f !! current_state_ f with
  | None =>
      name <~ getCurrentStateNameInternal ;>
      logMessage ("未找到状态 " ++ name ++ " 的转换表") ;>
      ret false
  | Some row =>
      match row !! event with
      | None =>
          name <~ getCurrentStateNameInternal ;>
          logMessage ("状态 " ++ name ++ " 不支持事件 " ++ eventToString event) ;>
          ret false
      | Some target_state =>
          returned_early <~
            match event_callbacks_ f !! event with
            | Some cb =>
                try_catch
                  (ok <~ call_event_callback cb event ;>
                   if negb ok then
                     logMessage ("Event callbacks failed: " ++ eventToString event) ;>
                     ret (Some false)
                   else ret None)
                  (fun e =>
                     logMessage ("Event callbacks are abnormal: " ++ what e) ;>
                     ret (Some false))
            | None => ret None
            end ;>
          match returned_early with
          | Some r => ret r
          | None =>
              f' <~ get ;>
              executeTransition (current_state_ f') target_state event
          end
      end
  end.

(** Fsm::triggerEvent(event, data), under the optional lock. *)
Definition triggerEvent_data (event : SystemEvent) (data : string) : M bool :=
  triggerEventInternal event data.

(** Fsm::triggerEvent(event) *)
Definition triggerEvent (event : SystemEvent) : M bool :=
  triggerEvent_data event "".

(** Fsm::stop *)
Definition stop : M unit :=
  triggerEvent STOP_REQUEST ;> ret tt.

(** Fsm::reset, under the optional lock. *)
Definition reset : M unit :=
  logMessage "重置状态机" ;>
  modify (fun f => set_previous_state (current_state_ f) f) ;>
  modify (set_current_state IDLE) ;>
  f <~ get ;>
  onStateChanged (previous_state_ f) (current_state_ f).

(** *** Vocabulary *)

(** What invoking a registered gating callback yields. *)
Definition invoke (cb : std_function (SystemEvent -> ended bool))
    (event : SystemEvent) : ended bool :=
  match cb with
  | Some g => g event
  | None => raised (std_object bad_function_call)
  end.

(** No gating callback is registered for [event], or the registered one
    returns true. *)
Definition gate_open (f : Fsm) (event : SystemEvent) : Prop :=
  match event_callbacks_ f !! event with
  | None => True
  | Some cb => invoke cb event = returned true
  end.

(** The installed sink, if any, takes every line and returns. *)
Definition sink_quiet (f : Fsm) : Prop :=
  forall sink, log_callback_ f = Some sink ->
  forall message, accept sink message = returned tt.

(** The engine after a committed transition to [to]. *)
Definition commit (to : SystemState) (f : Fsm) : Fsm :=
  set_current_state to (set_previous_state (current_state_ f) f).

(** What logMessage emits on engine [f]. *)
Definition log_effect (f : Fsm) (message : string) : list effect :=
  match log_callback_ f with
  | Some sink => [ELog (sink_id sink) message]
  | None => []
  end.

(** The default sink: writes the line to the console and returns. *)
Definition console : Sink :=
  {| sink_id := defaultLogCallback; accept := fun _ => returned tt |}.

(** A sink that fails on every line with a std::runtime_error. *)
Definition broken_sink : Sink :=
  {| sink_id := userLogCallback 0;
     accept := fun _ => raised (std_object {| what := "sink failure" |}) |}.

(** A constructed and initialized engine in state [s], with [gates] and
    [observer] registered and [sink] installed. *)
Definition engine (s : SystemState)
    (gates : gmap SystemEvent (std_function (SystemEvent -> ended bool)))
    (observer : std_function (SystemState -> SystemState -> ended unit))
    (sink : std_function Sink) : Fsm :=
  {| thread_safe_ := false;
     running_ := true;
     current_state_ := s;
     previous_state_ := IDLE;
     transition_table_ := setupTransitionTable ∅;
     state_change_callback_ := observer;
     event_callbacks_ := gates;
     log_callback_ := sink;
     has_original_trajectory_ := false;
     original_trajectory_data_ := "";
     execution_progress_ := 0%N |}.

(** [[](SystemEvent) -> bool { throw 42; }] *)
Definition throws_42 : std_function (SystemEvent -> ended bool) :=
  Some (fun _ => raised (other_object 42)).

(** [[](SystemEvent) -> bool { throw std::runtime_error("gate fault"); }] *)
Definition throws_runtime_error : std_function (SystemEvent -> ended bool) :=
  Some (fun _ => raised (std_object {| what := "gate fault" |})).

(** [[](SystemState, SystemState) { throw 7; }] *)
Definition observer_throws_7
    : std_function (SystemState -> SystemState -> ended unit) :=
  Some (fun _ _ => raised (other_object 7)).

(** [[](SystemState, SystemState) { throw std::runtime_error("observer fault"); }] *)
Definition observer_throws_runtime_error
    : std_function (SystemState -> SystemState -> ended unit) :=
  Some (fun _ _ => raised (std_object {| what := "observer fault" |})).

End Unwinding.

(** *** From the first embedding into the second

    An engine of the first embedding, seen as one of the second: its
    callbacks raise objects of the std::exception family only, its sink
    takes every line. *)

Definition lift_ended {A} (r : result A) : Unwinding.ended A :=
  match r with
  | Ret a => Unwinding.returned a
  | Throw e => Unwinding.raised (Unwinding.std_object e)
  end.

Definition lift_sink (id : LogSink) : Unwinding.Sink :=
  {| Unwinding.sink_id := id;
     Unwinding.accept := fun _ => Unwinding.returned tt |}.

Definition lift_gate (cb : EventCallback)
    : std_function (SystemEvent -> Unwinding.ended bool) :=
  option_map (fun g event => lift_ended (g event)) cb.

Definition lift (f : Fsm) : Unwinding.Fsm :=
  Unwinding.mkFsm (thread_safe_ f) (running_ f) (current_state_ f)
    (previous_state_ f) (transition_table_ f)
    (option_map (fun cb old_state new_state =>
                   lift_ended (cb old_state new_state))
       (state_change_callback_ f))
    (lift_gate <$> event_callbacks_ f)
    (option_map lift_sink (log_callback_ f))
    (has_original_trajectory_ f) (original_trajectory_data_ f)
    (execution_progress_ f).

Definition lift_run {A} (x : result A * Fsm * list effect)
    : Unwinding.ended A * Unwinding.Fsm * list effect :=
  (lift_ended (outcome x), lift (engine_after x), effects x).

(** ** The table *)

Section Table.

Lemma the_table_is_spec_table from event :
  table_find the_table from event = spec_table from event.
Proof. destruct from, event; vm_compute; reflexivity. Qed.

(** Every state has a row of its own. *)
Lemma the_table_rows from : is_Some (the_table !! from).
Proof.
  assert (H : exists event, is_Some (table_find the_table from event)).
  { destruct from;
      [exists START_MOVEIT | exists MOVEIT_READY | exists PLANNING_SUCCESS
      | exists EXECUTION_COMPLETE | exists START_PLANNING
      | exists RESET_REQUEST]; vm_compute; eauto. }
  destruct H as [event [to H]]. unfold table_find in H.
  destruct (the_table !! from); [eauto|discriminate].
Qed.

Lemma obstacle_cleared_nowhere from :
  table_find the_table from OBSTACLE_CLEARED = None.
Proof. rewrite the_table_is_spec_table. destruct from; reflexivity. Qed.

Example the_table_idle_start :
  table_find the_table IDLE START_MOVEIT = Some MOVEIT_STARTING.
Proof. vm_compute. reflexivity. Qed.

Example the_table_idle_stop : table_find the_table IDLE STOP_REQUEST = None.
Proof. vm_compute. reflexivity. Qed.

(** Twenty-one entries, as many as the specification's table has rows. *)
Example the_table_size :
  length (List.filter (fun p => bool_decide (is_Some (table_find the_table p.1 p.2)))
            (list_prod all_states all_events)) = 21.
Proof. vm_compute. reflexivity. Qed.

End Table.

(** ** Equations of the member functions *)

Ltac step :=
  unfold getOptionalLock, bind, try_catch, get, modify, ret, emit, throw,
    notify_all;
  cbv beta iota.

Ltac by_fields f :=
  destruct f; cbn; rewrite ?app_nil_r; reflexivity.

Section Equations.

Lemma logMessage_eq message f :
  logMessage message f = (Ret tt, f, log_effect f message).
Proof.
  unfold logMessage, log_effect; step.
  destruct (log_callback_ f); reflexivity.
Qed.

Lemma onStateChanged_eq old_state new_state f :
  onStateChanged old_state new_state f =
  (Ret tt, f, (state_change_effects f old_state new_state ++ [ENotifyAll])%list).
Proof.
  unfold onStateChanged, state_change_effects, call_state_change; step.
  destruct (state_change_callback_ f) as [cb|]; [|reflexivity].
  destruct (cb old_state new_state) as [[]|e]; [reflexivity|].
  rewrite logMessage_eq. reflexivity.
Qed.

Lemma isValidTransition_eq from to event f :
  isValidTransition from to event f =
  (Ret (bool_decide (table_find (transition_table_ f) from event = Some to)),
   f, []).
Proof.
  unfold isValidTransition, table_find; step.
  destruct (transition_table_ f !! from) as [row|].
  - destruct (row !! event) as [target|]; cbv beta iota.
    + rewrite (bool_decide_ext (target = to) (Some target = Some to))
        by (split; congruence).
      reflexivity.
    + rewrite bool_decide_eq_false_2 by congruence. reflexivity.
  - rewrite bool_decide_eq_false_2 by congruence. reflexivity.
Qed.

Lemma executeTransition_valid from to event f :
  table_find (transition_table_ f) from event = Some to ->
  executeTransition from to event f =
  (Ret true, commit to f,
   (log_effect f ("状态转换: " ++ stateToString from ++ " -> " ++ stateToString to)
    ++ state_change_effects f (current_state_ f) to ++ [ENotifyAll])%list).
Proof.
  intros H. unfold executeTransition.
  unfold bind at 1. rewrite isValidTransition_eq.
  rewrite bool_decide_eq_true_2 by exact H. cbn [negb]. step.
  rewrite logMessage_eq, onStateChanged_eq.
  destruct f; cbn. rewrite app_nil_r. reflexivity.
Qed.

Lemma executeTransition_invalid from to event f :
  table_find (transition_table_ f) from event <> Some to ->
  executeTransition from to event f =
  (Ret false, f,
   log_effect f ("无效转换: " ++ stateToString from ++ " -> " ++ stateToString to)).
Proof.
  intros H. unfold executeTransition.
  unfold bind at 1. rewrite isValidTransition_eq.
  rewrite bool_decide_eq_false_2 by exact H. cbn [negb]. step.
  rewrite logMessage_eq. cbn. rewrite app_nil_r. reflexivity.
Qed.

Lemma triggerEventInternal_miss event data f :
  table_find (transition_table_ f) (current_state_ f) event = None ->
  exists message,
    triggerEventInternal event data f = (Ret false, f, log_effect f message).
Proof.
  unfold table_find, triggerEventInternal, getCurrentStateNameInternal; step.
  destruct (transition_table_ f !! current_state_ f) as [row|].
  - intros ->. rewrite logMessage_eq. eexists. cbn. rewrite app_nil_r.
    reflexivity.
  - intros _. rewrite logMessage_eq. eexists. cbn. rewrite app_nil_r.
    reflexivity.
Qed.

Lemma triggerEventInternal_unsupported event data f row :
  transition_table_ f !! current_state_ f = Some row ->
  row !! event = None ->
  triggerEventInternal event data f =
  (Ret false, f,
   log_effect f ("状态 " ++ stateToString (current_state_ f)
                 ++ " 不支持事件 " ++ eventToString event)).
Proof.
  intros Hrow Hevent.
  unfold triggerEventInternal, getCurrentStateNameInternal; step.
  rewrite Hrow, Hevent, logMessage_eq. cbn. rewrite app_nil_r. reflexivity.
Qed.

Lemma triggerEventInternal_data event data data' f :
  triggerEventInternal event data f = triggerEventInternal event data' f.
Proof. reflexivity. Qed.

Lemma triggerEventInternal_shut event data f to cb :
  table_find (transition_table_ f) (current_state_ f) event = Some to ->
  event_callbacks_ f !! event = Some cb ->
  invoke cb event <> Ret true ->
  exists message,
    triggerEventInternal event data f =
    (Ret false, f, (gate_effects f event ++ log_effect f message)%list).
Proof.
  intros Hfind Hcb Hinv. unfold gate_effects. rewrite Hcb.
  revert Hfind Hinv.
  unfold table_find, triggerEventInternal, invoke, call_event_callback; step.
  destruct (transition_table_ f !! current_state_ f) as [row|]; [|discriminate].
  intros -> Hinv. rewrite Hcb.
  destruct cb as [g|]; step.
  - destruct (g event) as [[|]|e]; [congruence| |]; cbn [negb]; step;
      rewrite logMessage_eq; eexists; cbn; rewrite ?app_nil_r; reflexivity.
  - rewrite logMessage_eq. eexists. cbn. rewrite ?app_nil_r. reflexivity.
Qed.

Lemma triggerEventInternal_commit event data f to :
  table_find (transition_table_ f) (current_state_ f) event = Some to ->
  gate_open f event ->
  triggerEventInternal event data f =
  (Ret true, commit to f,
   (gate_effects f event
    ++ log_effect f ("状态转换: " ++ stateToString (current_state_ f)
                     ++ " -> " ++ stateToString to)
    ++ state_change_effects f (current_state_ f) to ++ [ENotifyAll])%list).
Proof.
  intros Hfind Hgate.
  pose proof (executeTransition_valid _ _ _ _ Hfind) as Hexec.
  revert Hfind Hgate.
  unfold table_find, triggerEventInternal, gate_open, gate_effects, invoke,
    call_event_callback; step.
  destruct (transition_table_ f !! current_state_ f) as [row|]; [|discriminate].
  intros Hrow. rewrite Hrow.
  destruct (event_callbacks_ f !! event) as [[g|]|]; step.
  - intros Hg. rewrite Hg. cbn [negb]. step. rewrite Hexec. reflexivity.
  - discriminate.
  - intros _. rewrite Hexec. reflexivity.
Qed.

(** Every attempt ends in one of two ways: it is refused and nothing
    changes, or the tabulated transition is committed. *)
Lemma triggerEventInternal_cases event data f :
  (exists t, triggerEventInternal event data f = (Ret false, f, t)
     /\ notifications t = []) \/
  (exists to t, table_find (transition_table_ f) (current_state_ f) event = Some to
     /\ triggerEventInternal event data f = (Ret true, commit to f, t)
     /\ state_change_calls t =
          match state_change_callback_ f with
          | Some _ => [(current_state_ f, to)]
          | None => []
          end
     /\ wakes t = 1).
Proof.
  destruct (table_find (transition_table_ f) (current_state_ f) event)
    as [to|] eqn:Hfind.
  - destruct (event_callbacks_ f !! event) as [cb|] eqn:Hcb.
    + destruct (invoke cb event) as [[|]|e] eqn:Hinv.
      * right. exists to. eexists. split; [reflexivity|].
        split; [apply triggerEventInternal_commit; [exact Hfind|] |].
        { unfold gate_open. rewrite Hcb. exact Hinv. }
        unfold gate_effects, state_change_effects, log_effect.
        rewrite Hcb. destruct cb as [g|], (log_callback_ f) as [sink|],
          (state_change_callback_ f) as [h|];
          try destruct (h (current_state_ f) to) as [[]|x];
          split; reflexivity.
      * left.
        destruct (triggerEventInternal_shut event data f to cb Hfind Hcb)
          as [message ->]; [congruence|].
        eexists. split; [reflexivity|].
        unfold gate_effects, log_effect. rewrite Hcb.
        destruct cb, (log_callback_ f); reflexivity.
      * left.
        destruct (triggerEventInternal_shut event data f to cb Hfind Hcb)
          as [message ->]; [congruence|].
        eexists. split; [reflexivity|].
        unfold gate_effects, log_effect. rewrite Hcb.
        destruct cb, (log_callback_ f); reflexivity.
    + right. exists to. eexists. split; [reflexivity|].
      split; [apply triggerEventInternal_commit; [exact Hfind|] |].
      { unfold gate_open. rewrite Hcb. exact I. }
      unfold gate_effects, state_change_effects, log_effect.
      rewrite Hcb. destruct (log_callback_ f) as [sink|],
        (state_change_callback_ f) as [h|];
        try destruct (h (current_state_ f) to) as [[]|x];
        split; reflexivity.
  - left. destruct (triggerEventInternal_miss event data f Hfind) as [message ->].
    eexists. split; [reflexivity|].
    unfold log_effect. destruct (log_callback_ f); reflexivity.
Qed.

End Equations.

(** ** Equations of the public member functions *)

Section PublicEquations.

Lemma initialize_eq f :
  initialize f =
  (Ret true,
   set_execution_progress 0%N
     (set_running true (set_previous_state IDLE (set_current_state IDLE f))),
   log_effect f "状态机初始化").
Proof.
  unfold initialize; step. rewrite logMessage_eq. by_fields f.
Qed.

Lemma start_eq f :
  start f =
  (Ret tt, set_current_state IDLE (set_running true f),
   log_effect f "启动状态机").
Proof.
  unfold start; step. rewrite logMessage_eq. by_fields f.
Qed.

Lemma reset_eq f :
  reset f =
  (Ret tt, commit IDLE f,
   (log_effect f "重置状态机"
    ++ state_change_effects f (current_state_ f) IDLE ++ [ENotifyAll])%list).
Proof.
  unfold reset; step. rewrite logMessage_eq, onStateChanged_eq.
  by_fields f.
Qed.

Lemma shutdown_eq f :
  shutdown f =
  (Ret tt, set_running false f,
   (log_effect f "关闭状态机" ++ [ENotifyAll])%list).
Proof.
  unfold shutdown; step. rewrite logMessage_eq. by_fields f.
Qed.

Lemma triggerEvent_eq event f :
  triggerEvent event f = triggerEventInternal event "" f.
Proof. reflexivity. Qed.

Lemma triggerEvent_data_eq event data f :
  triggerEvent_data event data f = triggerEventInternal event data f.
Proof. reflexivity. Qed.

Lemma stop_eq f :
  stop f =
  match triggerEventInternal STOP_REQUEST "" f with
  | (_, f1, t1) => (Ret tt, f1, t1)
  end.
Proof.
  unfold stop, triggerEvent, triggerEvent_data; step.
  destruct (triggerEventInternal_cases STOP_REQUEST "" f)
    as [(t & -> & _)|(to & t & _ & -> & _)];
    rewrite app_nil_r; reflexivity.
Qed.

Lemma canTransition_eq event f :
  canTransition event f =
  (Ret (bool_decide
          (is_Some (table_find (transition_table_ f) (current_state_ f) event))),
   f, []).
Proof.
  unfold canTransition, canTransitionInternal, table_find; step.
  destruct (transition_table_ f !! current_state_ f) as [row|].
  - reflexivity.
  - rewrite bool_decide_eq_false_2; [reflexivity|].
    intros [x Hx]. discriminate.
Qed.

Lemma setStateChangeCallback_eq callback f :
  setStateChangeCallback callback f =
  (Ret tt, set_state_change_callback callback f,
   log_effect f "State change callback registered").
Proof.
  unfold setStateChangeCallback; step. rewrite logMessage_eq.
  destruct f. reflexivity.
Qed.

Lemma setEventCallback_eq event callback f :
  setEventCallback event callback f =
  (Ret tt, set_event_callbacks (<[event := callback]> (event_callbacks_ f)) f,
   log_effect f ("Register the event callback: " ++ eventToString event)).
Proof.
  unfold setEventCallback; step. rewrite logMessage_eq.
  destruct f. reflexivity.
Qed.

(** The table is written by the constructor and by nothing else. *)
Lemma exec_call_table c f :
  transition_table_ (engine_after (exec_call c f)) = transition_table_ f.
Proof.
  destruct c; unfold exec_call; unfold bind at 1;
    rewrite ?initialize_eq, ?start_eq, ?stop_eq, ?reset_eq, ?shutdown_eq,
      ?triggerEvent_eq, ?triggerEvent_data_eq, ?canTransition_eq,
      ?setStateChangeCallback_eq, ?setEventCallback_eq, ?logMessage_eq;
    try (destruct f; reflexivity).
  - destruct (triggerEventInternal_cases STOP_REQUEST "" f)
      as [(t & -> & _)|(to & t & _ & -> & _)]; destruct f; reflexivity.
  - destruct (triggerEventInternal_cases event "" f)
      as [(t & -> & _)|(to & t & _ & -> & _)]; destruct f; reflexivity.
  - destruct (triggerEventInternal_cases event data f)
      as [(t & -> & _)|(to & t & _ & -> & _)]; destruct f; reflexivity.
Qed.

Lemma run_calls_table cs f :
  transition_table_ (fst (run_calls cs f)) = transition_table_ f.
Proof.
  revert f. induction cs as [|c cs IH]; intros f; [reflexivity|].
  cbn [run_calls]. pose proof (exec_call_table c f) as Hc.
  destruct (exec_call c f) as [[r f1] t1]. cbn in Hc.
  specialize (IH f1). destruct (run_calls cs f1) as [f2 t2].
  cbn in *. congruence.
Qed.

Lemma cv_wait_table pred sched f f' t :
  cv_wait pred sched f = Some (f', t) ->
  transition_table_ f' = transition_table_ f.
Proof.
  revert f f' t. induction sched as [|w sched IH]; intros f f' t; cbn [cv_wait].
  - destruct (pred f); congruence.
  - destruct (pred f); [congruence|].
    pose proof (run_calls_table (meanwhile w) f) as Hw.
    destruct (run_calls (meanwhile w) f) as [f1 t1]. cbn in Hw.
    destruct (cv_wait pred sched f1) as [[f2 t2]|] eqn:Hrest; [|discriminate].
    intros [= <- <-]. rewrite (IH _ _ _ Hrest). exact Hw.
Qed.

Lemma cv_wait_for_table pred sched f b f' t :
  cv_wait_for pred sched f = Some (b, f', t) ->
  transition_table_ f' = transition_table_ f.
Proof.
  revert f b f' t.
  induction sched as [|w sched IH]; intros f b f' t; cbn [cv_wait_for].
  - destruct (pred f); congruence.
  - destruct (pred f); [congruence|].
    pose proof (run_calls_table (meanwhile w) f) as Hw.
    destruct (run_calls (meanwhile w) f) as [f1 t1]. cbn in Hw.
    destruct (status w).
    + destruct (cv_wait_for pred sched f1) as [[[b2 f2] t2]|] eqn:Hrest;
        [|discriminate].
      intros [= <- <- <-]. rewrite (IH _ _ _ _ Hrest). exact Hw.
    + intros [= <- <- <-]. exact Hw.
Qed.

Lemma waitForState_table target_state timeout sched f b f' t :
  waitForState target_state timeout sched f = Some (b, f', t) ->
  transition_table_ f' = transition_table_ f.
Proof.
  unfold waitForState.
  destruct (negb (thread_safe_ f)).
  - rewrite logMessage_eq. congruence.
  - destruct (bool_decide (current_state_ f = target_state)); [congruence|].
    destruct (0 <? timeout)%Z.
    + apply cv_wait_for_table.
    + destruct (cv_wait (wait_pred target_state) sched f) as [[f1 t1]|] eqn:Hw;
        [|discriminate].
      intros [= <- <- <-]. exact (cv_wait_table _ _ _ _ _ Hw).
Qed.

Lemma reachable_table f : reachable f -> transition_table_ f = the_table.
Proof.
  induction 1 as [b|c f Hf IH|target_state timeout sched f f' b t Hf IH Hw].
  - reflexivity.
  - rewrite exec_call_table. exact IH.
  - rewrite (waitForState_table _ _ _ _ _ _ _ Hw). exact IH.
Qed.

End PublicEquations.

(** ** Event-driven transitions *)

Section Transitions.

(** C2. An event that the fixed transition table does not list for the
    current state is refused: triggerEvent, in either overload, returns
    false and leaves the whole engine, current_state_ and previous_state_
    included, as it was. OBSTACLE_CLEARED has no row under any state, so
    it is refused in every state. *)
Theorem triggerEvent_untabulated_fails (f : Fsm) :
  transition_table_ f = the_table ->
  (forall event data,
     table_find the_table (current_state_ f) event = None ->
     outcome (triggerEvent_data event data f) = Ret false /\
     engine_after (triggerEvent_data event data f) = f /\
     outcome (triggerEvent event f) = Ret false /\
     engine_after (triggerEvent event f) = f) /\
  (forall s, table_find the_table s OBSTACLE_CLEARED = None) /\
  outcome (triggerEvent OBSTACLE_CLEARED f) = Ret false /\
  current_state_ (engine_after (triggerEvent OBSTACLE_CLEARED f))
    = current_state_ f /\
  previous_state_ (engine_after (triggerEvent OBSTACLE_CLEARED f))
    = previous_state_ f.
Proof.
  intros Htable.
  assert (Hmiss : forall event data,
    table_find the_table (current_state_ f) event = None ->
    outcome (triggerEventInternal event data f) = Ret false /\
    engine_after (triggerEventInternal event data f) = f).
  { intros event data Hfind. rewrite <- Htable in Hfind.
    destruct (triggerEventInternal_miss event data f Hfind) as [message ->].
    split; reflexivity. }
  split; [|split].
  - intros event data Hfind. rewrite triggerEvent_eq, triggerEvent_data_eq.
    destruct (Hmiss event data Hfind), (Hmiss event "" Hfind). auto.
  - apply obstacle_cleared_nowhere.
  - rewrite triggerEvent_eq.
    destruct (Hmiss OBSTACLE_CLEARED "" (obstacle_cleared_nowhere _))
      as [-> ->].
    auto.
Qed.

Lemma triggerEvent_untabulated_fails_witness :
  outcome (triggerEvent_data MOVEIT_READY "ready" (in_state PLANNING))
    = Ret false /\
  engine_after (triggerEvent_data MOVEIT_READY "ready" (in_state PLANNING))
    = in_state PLANNING /\
  outcome (triggerEvent MOVEIT_READY (in_state PLANNING)) = Ret false /\
  engine_after (triggerEvent MOVEIT_READY (in_state PLANNING))
    = in_state PLANNING.
Proof.
  apply (proj1 (triggerEvent_untabulated_fails (in_state PLANNING) eq_refl)).
  vm_compute. reflexivity.
Defined.

(** C3. An event that the table lists for the current state, with the
    gate open (no gating callback registered for the event, or one that
    returns true), is committed: triggerEvent returns true, current_state_
    becomes exactly the tabulated target, previous_state_ becomes the state
    before, nothing else in the engine changes, the registered
    state-change callback is invoked exactly once, with (old, new), and
    the waiters are woken once. *)
Theorem triggerEvent_tabulated_commits (f : Fsm) (event : SystemEvent)
    (data : string) (target : SystemState) :
  transition_table_ f = the_table ->
  table_find the_table (current_state_ f) event = Some target ->
  gate_open f event ->
  outcome (triggerEvent_data event data f) = Ret true /\
  current_state_ (engine_after (triggerEvent_data event data f)) = target /\
  previous_state_ (engine_after (triggerEvent_data event data f))
    = current_state_ f /\
  engine_after (triggerEvent_data event data f) = commit target f /\
  state_change_calls (effects (triggerEvent_data event data f)) =
    match state_change_callback_ f with
    | Some _ => [(current_state_ f, target)]
    | None => []
    end /\
  wakes (effects (triggerEvent_data event data f)) = 1.
Proof.
  intros Htable Hfind Hgate. rewrite <- Htable in Hfind.
  rewrite triggerEvent_data_eq,
    (triggerEventInternal_commit event data f target Hfind Hgate).
  unfold outcome, engine_after, effects; cbn [fst snd].
  repeat apply conj.
  - reflexivity.
  - destruct f; reflexivity.
  - destruct f; reflexivity.
  - reflexivity.
  - unfold gate_effects, state_change_effects, log_effect.
    destruct (event_callbacks_ f !! event) as [[g|]|],
      (log_callback_ f) as [sink|], (state_change_callback_ f) as [h|];
      try destruct (h (current_state_ f) target) as [[]|x]; reflexivity.
  - unfold gate_effects, state_change_effects, log_effect.
    destruct (event_callbacks_ f !! event) as [[g|]|],
      (log_callback_ f) as [sink|], (state_change_callback_ f) as [h|];
      try destruct (h (current_state_ f) target) as [[]|x]; reflexivity.
Qed.

Lemma triggerEvent_tabulated_commits_witness :
  let f := engine_after
             (setStateChangeCallback (Some (fun _ _ => Ret tt))
                (in_state PLANNING)) in
  outcome (triggerEvent_data OBSTACLE_APPEARED "" f) = Ret true /\
  current_state_ (engine_after (triggerEvent_data OBSTACLE_APPEARED "" f))
    = OBSTACLE_DETECTED /\
  previous_state_ (engine_after (triggerEvent_data OBSTACLE_APPEARED "" f))
    = PLANNING /\
  engine_after (triggerEvent_data OBSTACLE_APPEARED "" f)
    = commit OBSTACLE_DETECTED f /\
  state_change_calls (effects (triggerEvent_data OBSTACLE_APPEARED "" f))
    = [(PLANNING, OBSTACLE_DETECTED)] /\
  wakes (effects (triggerEvent_data OBSTACLE_APPEARED "" f)) = 1.
Proof.
  intros f.
  apply (triggerEvent_tabulated_commits f OBSTACLE_APPEARED ""
           OBSTACLE_DETECTED).
  - reflexivity.
  - vm_compute. reflexivity.
  - vm_compute. exact I.
Defined.

(** C4. canTransition returns true exactly when (current_state_, event)
    is a key of the table; the engine is returned untouched and the call
    emits nothing: no callback runs, nothing is logged, nobody is woken. *)
Theorem canTransition_iff_table_key (f : Fsm) (event : SystemEvent) :
  transition_table_ f = the_table ->
  (outcome (canTransition event f) = Ret true <->
   is_Some (table_find the_table (current_state_ f) event)) /\
  (exists b, outcome (canTransition event f) = Ret b) /\
  engine_after (canTransition event f) = f /\
  effects (canTransition event f) = [].
Proof.
  intros Htable. rewrite canTransition_eq, Htable.
  unfold outcome, engine_after, effects; cbn [fst snd].
  generalize (table_find the_table (current_state_ f) event). intros o.
  repeat apply conj; eauto.
  - intros [= H]. apply bool_decide_eq_true in H. exact H.
  - intros H. rewrite bool_decide_eq_true_2 by exact H. reflexivity.
Qed.

Lemma canTransition_iff_table_key_witness :
  (outcome (canTransition STOP_REQUEST (in_state EXECUTING)) = Ret true <->
   is_Some (table_find the_table EXECUTING STOP_REQUEST)) /\
  (exists b, outcome (canTransition STOP_REQUEST (in_state EXECUTING)) = Ret b) /\
  engine_after (canTransition STOP_REQUEST (in_state EXECUTING))
    = in_state EXECUTING /\
  effects (canTransition STOP_REQUEST (in_state EXECUTING)) = [].
Proof.
  apply (canTransition_iff_table_key (in_state EXECUTING) STOP_REQUEST).
  reflexivity.
Defined.

End Transitions.

(** ** Lifecycle operations and notifications *)

Section Lifecycle.

(** C7. Whatever the state before, reset puts the engine in IDLE, stores
    the state before in previous_state_, invokes the registered
    state-change callback exactly once, with (state before, IDLE), and
    wakes the waiters exactly once; a state before that is already IDLE
    is no exception. *)
Theorem reset_forces_idle_and_notifies (f : Fsm) :
  outcome (reset f) = Ret tt /\
  current_state_ (engine_after (reset f)) = IDLE /\
  previous_state_ (engine_after (reset f)) = current_state_ f /\
  engine_after (reset f) = commit IDLE f /\
  state_change_calls (effects (reset f)) =
    match state_change_callback_ f with
    | Some _ => [(current_state_ f, IDLE)]
    | None => []
    end /\
  wakes (effects (reset f)) = 1.
Proof.
  rewrite reset_eq. unfold outcome, engine_after, effects; cbn [fst snd].
  repeat apply conj; try reflexivity; try (destruct f; reflexivity);
    unfold state_change_effects, log_effect;
    destruct (log_callback_ f) as [sink|],
      (state_change_callback_ f) as [h|];
    try destruct (h (current_state_ f) IDLE) as [[]|x]; reflexivity.
Qed.

Example reset_from_idle_notifies :
  let f := engine_after
             (setStateChangeCallback (Some (fun _ _ => Ret tt)) fresh) in
  current_state_ f = IDLE /\
  state_change_calls (effects (reset f)) = [(IDLE, IDLE)] /\
  wakes (effects (reset f)) = 1.
Proof. vm_compute. auto. Qed.

(** C9. stop in IDLE: the table has no (IDLE, STOP_REQUEST) entry, the
    triggerEvent underneath returns false, the engine is left as it was,
    and stop hands its caller the same nothing as ever: the refusal shows
    only as a line given to the log sink. *)
Theorem stop_in_idle_is_silent_failure (f : Fsm) :
  transition_table_ f = the_table ->
  current_state_ f = IDLE ->
  table_find the_table IDLE STOP_REQUEST = None /\
  outcome (triggerEvent STOP_REQUEST f) = Ret false /\
  stop f = (Ret tt, f, log_effect f "状态 IDLE 不支持事件 STOP_REQUEST") /\
  (forall g, outcome (stop g) = Ret tt).
Proof.
  intros Htable Hidle.
  assert (Hfind : table_find the_table IDLE STOP_REQUEST = None)
    by (vm_compute; reflexivity).
  destruct (the_table_rows IDLE) as [row Hrow].
  assert (Hevent : row !! STOP_REQUEST = None).
  { unfold table_find in Hfind. rewrite Hrow in Hfind. exact Hfind. }
  assert (Heq : triggerEventInternal STOP_REQUEST "" f =
                (Ret false, f, log_effect f "状态 IDLE 不支持事件 STOP_REQUEST")).
  { rewrite (triggerEventInternal_unsupported STOP_REQUEST "" f row).
    - rewrite Hidle. reflexivity.
    - rewrite Htable, Hidle. exact Hrow.
    - exact Hevent. }
  repeat apply conj.
  - exact Hfind.
  - rewrite triggerEvent_eq, Heq. reflexivity.
  - rewrite stop_eq, Heq. reflexivity.
  - intros g. rewrite stop_eq.
    destruct (triggerEventInternal STOP_REQUEST "" g) as [[r g1] t1].
    reflexivity.
Qed.

Lemma stop_in_idle_is_silent_failure_witness :
  table_find the_table IDLE STOP_REQUEST = None /\
  outcome (triggerEvent STOP_REQUEST fresh) = Ret false /\
  stop fresh =
    (Ret tt, fresh, log_effect fresh "状态 IDLE 不支持事件 STOP_REQUEST") /\
  (forall g, outcome (stop g) = Ret tt).
Proof.
  apply (stop_in_idle_is_silent_failure fresh); reflexivity.
Defined.

(** What a call that did not commit, reset or shut down leaves in the
    trace: no notification. *)
Lemma exec_call_notifications c f :
  notifications (effects (exec_call c f)) <> [] ->
  c = c_reset \/ c = c_shutdown \/ commits c f.
Proof.
  assert (Hlog : forall message, notifications (log_effect f message) = []).
  { intros message. unfold log_effect. destruct (log_callback_ f); reflexivity. }
  assert (Htrig : forall event data t r f1,
    triggerEventInternal event data f = (r, f1, t) ->
    notifications t <> [] ->
    outcome (triggerEvent event f) = Ret true /\
    is_Some (table_find (transition_table_ f) (current_state_ f) event)).
  { intros event data t r f1 Heq Hne. rewrite triggerEvent_eq.
    rewrite (triggerEventInternal_data event "" data).
    destruct (triggerEventInternal_cases event data f)
      as [(t' & Ht' & Hnone)|(to & t' & Hfind & Ht' & _)];
      rewrite Ht' in Heq |- *.
    - injection Heq as <- <- <-. contradiction.
    - split; [reflexivity|eauto]. }
  destruct c; unfold exec_call; unfold bind at 1;
    rewrite ?initialize_eq, ?start_eq, ?stop_eq, ?reset_eq, ?shutdown_eq,
      ?triggerEvent_eq, ?triggerEvent_data_eq, ?canTransition_eq,
      ?setStateChangeCallback_eq, ?setEventCallback_eq, ?logMessage_eq;
    unfold effects; auto;
    try (cbn; rewrite ?app_nil_r, ?Hlog; intros H; now contradiction H).
  - destruct (triggerEventInternal STOP_REQUEST "" f) as [[r f1] t] eqn:Heq.
    cbn. rewrite app_nil_r. intros Hne. right. right.
    exists STOP_REQUEST. split; [reflexivity|]. exact (Htrig _ _ _ _ _ Heq Hne).
  - destruct (triggerEventInternal event "" f) as [[r f1] t] eqn:Heq.
    destruct r as [b|x]; cbn; rewrite ?app_nil_r; intros Hne; right; right;
      exists event; (split; [reflexivity|]); exact (Htrig _ _ _ _ _ Heq Hne).
  - destruct (triggerEventInternal event data f) as [[r f1] t] eqn:Heq.
    destruct r as [b|x]; cbn; rewrite ?app_nil_r; intros Hne; right; right;
      exists event; (split; [reflexivity|]); exact (Htrig _ _ _ _ _ Heq Hne).
Qed.

(** C10. Neither start nor initialize invokes the state-change callback
    or broadcasts on the condition variable, whatever the state they
    force to IDLE; a public call whose trace holds a notification is
    reset, shutdown, or a call that committed a transition, and each of
    those does broadcast exactly once. *)
Theorem start_initialize_never_notify :
  (forall f,
     notifications (effects (start f)) = [] /\
     state_change_calls (effects (start f)) = [] /\
     wakes (effects (start f)) = 0 /\
     current_state_ (engine_after (start f)) = IDLE) /\
  (forall f,
     notifications (effects (initialize f)) = [] /\
     state_change_calls (effects (initialize f)) = [] /\
     wakes (effects (initialize f)) = 0 /\
     current_state_ (engine_after (initialize f)) = IDLE) /\
  (forall c f,
     notifications (effects (exec_call c f)) <> [] ->
     c = c_reset \/ c = c_shutdown \/ commits c f) /\
  (forall f, wakes (effects (reset f)) = 1) /\
  (forall f, wakes (effects (shutdown f)) = 1) /\
  (forall c f, commits c f -> wakes (effects (exec_call c f)) = 1).
Proof.
  repeat apply conj.
  - intros f. rewrite start_eq. unfold effects, engine_after, log_effect.
    cbn [fst snd]. destruct (log_callback_ f); destruct f; auto.
  - intros f. rewrite initialize_eq. unfold effects, engine_after, log_effect.
    cbn [fst snd]. destruct (log_callback_ f); destruct f; auto.
  - apply exec_call_notifications.
  - intros f. rewrite reset_eq. unfold effects, state_change_effects, log_effect.
    cbn [snd]. destruct (log_callback_ f) as [sink|],
      (state_change_callback_ f) as [h|];
      try destruct (h (current_state_ f) IDLE) as [[]|x]; reflexivity.
  - intros f. rewrite shutdown_eq. unfold effects, log_effect. cbn [snd].
    destruct (log_callback_ f); reflexivity.
  - intros c f (event & Hev & Hret & _).
    rewrite triggerEvent_eq in Hret.
    assert (Hw : forall data, wakes (effects (triggerEventInternal event data f)) = 1
                  /\ exists b, outcome (triggerEventInternal event data f) = Ret b).
    { intros data. rewrite (triggerEventInternal_data event data "").
      destruct (triggerEventInternal_cases event "" f)
        as [(t' & Ht' & _)|(to & t' & _ & Ht' & _ & Hwakes)];
        rewrite Ht' in Hret |- *; [discriminate|].
      split; [exact Hwakes|eexists; reflexivity]. }
    destruct c; try discriminate; injection Hev as Hev; subst event;
      unfold exec_call; unfold bind at 1;
      rewrite ?stop_eq, ?triggerEvent_eq, ?triggerEvent_data_eq.
    + destruct (Hw "") as [H _].
      destruct (triggerEventInternal STOP_REQUEST "" f) as [[r f1] t].
      unfold effects in *. cbn in *. rewrite app_nil_r. exact H.
    + destruct (Hw "") as [H [b Hb]].
      destruct (triggerEventInternal _ "" f) as [[r f1] t].
      unfold effects, outcome in *. cbn in *. subst r. cbn.
      rewrite app_nil_r. exact H.
    + destruct (Hw data) as [H [b Hb]].
      destruct (triggerEventInternal _ data f) as [[r f1] t].
      unfold effects, outcome in *. cbn in *. subst r. cbn.
      rewrite app_nil_r. exact H.
Qed.

Lemma start_initialize_never_notify_witness :
  c_triggerEvent START_MOVEIT = c_reset \/
  c_triggerEvent START_MOVEIT = c_shutdown \/
  commits (c_triggerEvent START_MOVEIT) fresh.
Proof.
  apply (proj1 (proj2 (proj2 start_initialize_never_notify))).
  vm_compute. discriminate.
Defined.

(** A veto, seen from outside: one callback invocation, one log line. *)
Example veto_is_logged :
  let f := engine_after (setEventCallback START_MOVEIT veto fresh) in
  outcome (triggerEvent START_MOVEIT f) = Ret false /\
  current_state_ (engine_after (triggerEvent START_MOVEIT f)) = IDLE /\
  effects (triggerEvent START_MOVEIT f) =
    [EEventCallback START_MOVEIT;
     ELog defaultLogCallback "Event callbacks failed: START_MOVEIT"].
Proof. vm_compute. auto. Qed.

(** The walk of the demonstration driver and of the specification's
    end-to-end scenario. *)
Example scenario_obstacle_then_stop :
  map (fun cs => current_state_ (fst (run_calls cs (Fsm_new false))))
    [[c_initialize];
     [c_initialize; c_triggerEvent START_MOVEIT];
     [c_initialize; c_triggerEvent START_MOVEIT; c_triggerEvent MOVEIT_READY];
     [c_initialize; c_triggerEvent START_MOVEIT; c_triggerEvent MOVEIT_READY;
      c_triggerEvent OBSTACLE_APPEARED];
     [c_initialize; c_triggerEvent START_MOVEIT; c_triggerEvent MOVEIT_READY;
      c_triggerEvent OBSTACLE_APPEARED; c_stop]]
  = [IDLE; MOVEIT_STARTING; PLANNING; OBSTACLE_DETECTED; IDLE].
Proof. vm_compute. reflexivity. Qed.

Example start_from_planning_is_quiet :
  let f := engine_after
             (setStateChangeCallback (Some (fun _ _ => Ret tt))
                (in_state PLANNING)) in
  current_state_ f = PLANNING /\
  current_state_ (engine_after (start f)) = IDLE /\
  effects (start f) = [ELog defaultLogCallback "启动状态机"].
Proof. vm_compute. auto. Qed.

End Lifecycle.

(** ** The invariant of reachable engines *)

Section Invariant.

(** C8. In every engine reachable through public operations,
    current_state_ is one of the six enumerators and the table is the
    fixed one; and a triggerEvent on such an engine either is refused and
    changes nothing, or returns true having moved current_state_ along an
    entry (from, event) -> to that the table holds as such. So a change
    of current_state_ by triggerEvent always is a tabulated edge. *)
Theorem reachable_state_and_table_driven (f : Fsm) :
  reachable f ->
  In (current_state_ f) all_states /\
  transition_table_ f = the_table /\
  forall event data,
    ((outcome (triggerEvent_data event data f) = Ret false /\
      engine_after (triggerEvent_data event data f) = f) \/
     (outcome (triggerEvent_data event data f) = Ret true /\
      table_find the_table (current_state_ f) event =
        Some (current_state_ (engine_after (triggerEvent_data event data f))) /\
      previous_state_ (engine_after (triggerEvent_data event data f)) =
        current_state_ f)) /\
    (current_state_ (engine_after (triggerEvent_data event data f))
       <> current_state_ f ->
     table_find the_table (current_state_ f) event =
       Some (current_state_ (engine_after (triggerEvent_data event data f)))).
Proof.
  intros Hreach. pose proof (reachable_table f Hreach) as Htable.
  repeat apply conj.
  - destruct (current_state_ f); cbn; tauto.
  - exact Htable.
  - intros event data. rewrite triggerEvent_data_eq, <- Htable.
    destruct (triggerEventInternal_cases event data f)
      as [(t & -> & _)|(to & t & Hfind & -> & _)];
      unfold outcome, engine_after; cbn [fst snd].
    + split; [left; split; reflexivity|]. intros H. contradiction H. reflexivity.
    + assert (Hcur : current_state_ (commit to f) = to) by (destruct f; reflexivity).
      assert (Hprev : previous_state_ (commit to f) = current_state_ f)
        by (destruct f; reflexivity).
      rewrite Hcur, Hprev. split; [right; auto|auto].
Qed.

Lemma reachable_state_and_table_driven_witness :
  let f := engine_after (exec_call (c_triggerEvent START_MOVEIT)
             (engine_after (exec_call c_initialize (Fsm_new false)))) in
  In (current_state_ f) all_states /\
  transition_table_ f = the_table /\
  forall event data,
    ((outcome (triggerEvent_data event data f) = Ret false /\
      engine_after (triggerEvent_data event data f) = f) \/
     (outcome (triggerEvent_data event data f) = Ret true /\
      table_find the_table (current_state_ f) event =
        Some (current_state_ (engine_after (triggerEvent_data event data f))) /\
      previous_state_ (engine_after (triggerEvent_data event data f)) =
        current_state_ f)) /\
    (current_state_ (engine_after (triggerEvent_data event data f))
       <> current_state_ f ->
     table_find the_table (current_state_ f) event =
       Some (current_state_ (engine_after (triggerEvent_data event data f)))).
Proof.
  intros f.
  apply (reachable_state_and_table_driven f).
  apply reachable_call, reachable_call, reachable_new.
Defined.

End Invariant.

(** ** The blocking wait *)

Section Wait.

(** In synchronized mode, a wait already in the target state returns at
    once, with success. *)
Lemma waitForState_already_there target_state timeout sched f :
  thread_safe_ f = true ->
  current_state_ f = target_state ->
  waitForState target_state timeout sched f = Some (true, f, []).
Proof.
  intros Hsafe Hcur. unfold waitForState. rewrite Hsafe. cbn [negb].
  rewrite bool_decide_eq_true_2 by exact Hcur. reflexivity.
Qed.

(** In unsynchronized mode the wait fails at once. *)
Lemma waitForState_unsynchronized target_state timeout sched f :
  thread_safe_ f = false ->
  waitForState target_state timeout sched f =
  Some (false, f,
        log_effect f "The wait state feature requires thread safety to be enabled").
Proof.
  intros Hsafe. unfold waitForState. rewrite Hsafe, logMessage_eq. reflexivity.
Qed.

(** The timed wait hands back the last value of the predicate. *)
Lemma cv_wait_for_result pred sched f b f' t :
  cv_wait_for pred sched f = Some (b, f', t) -> b = pred f'.
Proof.
  revert f b f' t.
  induction sched as [|w sched IH]; intros f b f' t; cbn [cv_wait_for].
  - destruct (pred f) eqn:Hp; [|discriminate]. intros [= <- <- <-]. auto.
  - destruct (pred f) eqn:Hp; [intros [= <- <- <-]; auto|].
    destruct (run_calls (meanwhile w) f) as [f1 t1].
    destruct (status w).
    + destruct (cv_wait_for pred sched f1) as [[[b2 f2] t2]|] eqn:Hrest;
        [|discriminate].
      intros [= <- <- <-]. exact (IH _ _ _ _ Hrest).
    + intros [= <- <- <-]. reflexivity.
Qed.

(** The wait without deadline ends only with the predicate true. *)
Lemma cv_wait_result pred sched f f' t :
  cv_wait pred sched f = Some (f', t) -> pred f' = true.
Proof.
  revert f f' t. induction sched as [|w sched IH]; intros f f' t; cbn [cv_wait].
  - destruct (pred f) eqn:Hp; [|discriminate]. intros [= <- <-]. exact Hp.
  - destruct (pred f) eqn:Hp; [intros [= <- <-]; exact Hp|].
    destruct (run_calls (meanwhile w) f) as [f1 t1].
    destruct (cv_wait pred sched f1) as [[f2 t2]|] eqn:Hrest; [|discriminate].
    intros [= <- <-]. exact (IH _ _ _ Hrest).
Qed.

(** With a positive timeout, a wait that ends on an engine that is no
    longer running reports success, whether or not the target state was
    reached. *)
Lemma waitForState_timed_stopped target_state timeout sched f b f' t :
  thread_safe_ f = true ->
  (0 < timeout)%Z ->
  waitForState target_state timeout sched f = Some (b, f', t) ->
  running_ f' = false ->
  b = true.
Proof.
  intros Hsafe Hpos. unfold waitForState. rewrite Hsafe. cbn [negb].
  destruct (bool_decide (current_state_ f = target_state)).
  - intros [= <- <- <-]. reflexivity.
  - apply Z.ltb_lt in Hpos. rewrite Hpos.
    intros Hw Hrun. rewrite (cv_wait_for_result _ _ _ _ _ _ Hw).
    unfold wait_pred. rewrite Hrun. apply orb_true_r.
Qed.

(** Without a timeout, the same wait reports whether the target state
    was reached. *)
Lemma waitForState_untimed_result target_state timeout sched f b f' t :
  thread_safe_ f = true ->
  (timeout <= 0)%Z ->
  waitForState target_state timeout sched f = Some (b, f', t) ->
  b = bool_decide (current_state_ f' = target_state).
Proof.
  intros Hsafe Hnon. unfold waitForState. rewrite Hsafe. cbn [negb].
  destruct (bool_decide (current_state_ f = target_state)) eqn:Hcur.
  - intros [= <- <- <-]. symmetry. exact Hcur.
  - apply Z.ltb_ge in Hnon. rewrite Hnon.
    destruct (cv_wait (wait_pred target_state) sched f) as [[f1 t1]|];
      [|discriminate].
    intros [= <- <- <-]. reflexivity.
Qed.

(** C1, on the code. A thread waits on a running, synchronized engine in
    IDLE for PLANNING with a timeout of 1000 ms; another thread calls
    shutdown, whose broadcast resumes the waiter. The engine is still in
    IDLE and no longer running, yet waitForState returns true. With no
    timeout the same run returns false. *)
Theorem waitForState_timed_shutdown_reports_success :
  thread_safe_ synchronized = true /\
  running_ synchronized = true /\
  current_state_ synchronized = IDLE /\
  exists f' t,
    waitForState PLANNING 1000
      [{| meanwhile := [c_shutdown]; status := cv_no_timeout |}] synchronized
      = Some (true, f', t) /\
    running_ f' = false /\
    current_state_ f' = IDLE /\
    t = [ELog defaultLogCallback "关闭状态机"; ENotifyAll] /\
    waitForState PLANNING 0
      [{| meanwhile := [c_shutdown]; status := cv_no_timeout |}] synchronized
      = Some (false, f', t).
Proof.
  repeat apply conj; try reflexivity.
  exists (set_running false synchronized),
    [ELog defaultLogCallback "关闭状态机"; ENotifyAll].
  repeat apply conj; reflexivity.
Qed.

End Wait.


(** ** One attempt, case by case *)

Section Cases.

Lemma triggerEventInternal_eq event data f :
  triggerEventInternal event data f = trigger_cases event f.
Proof.
  unfold trigger_cases.
  destruct (transition_table_ f !! current_state_ f) as [row|] eqn:Hrow.
  - destruct (row !! event) as [to|] eqn:Hto.
    + assert (Hfind : table_find (transition_table_ f) (current_state_ f) event
                      = Some to) by (unfold table_find; rewrite Hrow; exact Hto).
      destruct (event_callbacks_ f !! event) as [cb|] eqn:Hcb.
      * destruct (invoke cb event) as [[|]|e] eqn:Hinv.
        -- apply triggerEventInternal_commit; [exact Hfind|].
           unfold gate_open. rewrite Hcb. exact Hinv.
        -- pose proof (executeTransition_valid _ _ _ _ Hfind) as Hexec.
           revert Hinv. unfold triggerEventInternal, gate_effects, invoke,
             call_event_callback; step.
           rewrite Hrow, Hto, Hcb. destruct cb as [g|]; [|discriminate].
           step. intros Hg. rewrite Hg. cbn [negb]. step.
           rewrite logMessage_eq. cbn. rewrite ?app_nil_r. reflexivity.
        -- revert Hinv. unfold triggerEventInternal, gate_effects, invoke,
             call_event_callback; step.
           rewrite Hrow, Hto, Hcb. destruct cb as [g|]; step.
           ++ intros Hg. rewrite Hg. rewrite logMessage_eq. cbn.
              rewrite ?app_nil_r. reflexivity.
           ++ intros [= <-]. rewrite logMessage_eq. cbn.
              rewrite ?app_nil_r. reflexivity.
      * rewrite (triggerEventInternal_commit event data f to Hfind).
        -- reflexivity.
        -- unfold gate_open. rewrite Hcb. exact I.
    + apply (triggerEventInternal_unsupported event data f row Hrow Hto).
  - unfold triggerEventInternal, getCurrentStateNameInternal; step.
    rewrite Hrow, logMessage_eq. cbn. rewrite app_nil_r. reflexivity.
Qed.

End Cases.

(** ** Display names *)

Section Names.

(** X1. stateToString and eventToString give every enumerator a name of
    its own, and never the fallback name of the [default] branch. *)
Theorem display_names_are_distinct :
  (forall s1 s2, stateToString s1 = stateToString s2 -> s1 = s2) /\
  (forall e1 e2, eventToString e1 = eventToString e2 -> e1 = e2) /\
  (forall s, stateToString s <> "UNKNOWN") /\
  (forall e, eventToString e <> "UNKNOWN_EVENT").
Proof.
  repeat apply conj.
  - intros s1 s2; destruct s1, s2; cbn; intros H;
      first [reflexivity | discriminate H].
  - intros e1 e2; destruct e1, e2; cbn; intros H;
      first [reflexivity | discriminate H].
  - intros s; destruct s; discriminate.
  - intros e; destruct e; discriminate.
Qed.

Lemma display_names_are_distinct_witness : PLANNING = PLANNING.
Proof.
  apply (proj1 display_names_are_distinct PLANNING PLANNING). reflexivity.
Defined.

End Names.

(** ** Queries and the public boundary *)

Section Boundary.

(** X2. getCurrentState, getCurrentStateName, isInState and canTransition
    hand back a value, leave the engine as it is and emit nothing; the name
    is the display name of the current state, and isInState says true
    exactly for the state getCurrentState returns. *)
Theorem queries_are_pure (c : call) (f : Fsm) :
  is_query c = true ->
  (exists v, outcome (exec_call c f) = Ret v) /\
  engine_after (exec_call c f) = f /\
  effects (exec_call c f) = [] /\
  outcome (getCurrentState f) = Ret (current_state_ f) /\
  outcome (getCurrentStateName f) = Ret (stateToString (current_state_ f)) /\
  (forall s, outcome (isInState s f) = Ret true <-> current_state_ f = s).
Proof.
  intros Hq. repeat apply conj.
  - destruct c; try discriminate; try (eexists; reflexivity).
    unfold exec_call; unfold bind at 1. rewrite canTransition_eq.
    eexists; reflexivity.
  - destruct c; try discriminate; try reflexivity.
    unfold exec_call; unfold bind at 1. rewrite canTransition_eq. reflexivity.
  - destruct c; try discriminate; try reflexivity.
    unfold exec_call; unfold bind at 1. rewrite canTransition_eq. reflexivity.
  - reflexivity.
  - reflexivity.
  - intros s. unfold isInState, getCurrentState, outcome; step. cbn [fst].
    split.
    + intros [= H]. apply bool_decide_eq_true in H. exact H.
    + intros H. rewrite bool_decide_eq_true_2 by exact H. reflexivity.
Qed.

Lemma queries_are_pure_witness :
  (exists v, outcome (exec_call (c_isInState PLANNING) (in_state PLANNING)) = Ret v) /\
  engine_after (exec_call (c_isInState PLANNING) (in_state PLANNING))
    = in_state PLANNING /\
  effects (exec_call (c_isInState PLANNING) (in_state PLANNING)) = [] /\
  outcome (getCurrentState (in_state PLANNING))
    = Ret (current_state_ (in_state PLANNING)) /\
  outcome (getCurrentStateName (in_state PLANNING))
    = Ret (stateToString (current_state_ (in_state PLANNING))) /\
  (forall s, outcome (isInState s (in_state PLANNING)) = Ret true
             <-> current_state_ (in_state PLANNING) = s).
Proof.
  apply (queries_are_pure (c_isInState PLANNING) (in_state PLANNING)).
  reflexivity.
Defined.

Example faulty_callbacks_are_contained :
  let f := engine_after (setEventCallback START_MOVEIT faulty_gate
             (engine_after (setStateChangeCallback faulty_observer fresh))) in
  outcome (triggerEvent START_MOVEIT f) = Ret false /\
  outcome (triggerEvent ERROR_OCCURRED f) = Ret true /\
  outcome (reset f) = Ret tt.
Proof. vm_compute. auto. Qed.

End Boundary.

(** ** The running flag *)

Section Running.

(** X4. Only initialize and start raise running_, only shutdown lowers it;
    every other public call, reset and stop included, leaves it as it is. *)
Theorem running_flag_writers (c : call) (f : Fsm) :
  running_ (engine_after (exec_call c f)) =
  match c with
  | c_initialize | c_start => true
  | c_shutdown => false
  | _ => running_ f
  end.
Proof.
  destruct c; unfold exec_call; unfold bind at 1;
    rewrite ?initialize_eq, ?start_eq, ?stop_eq, ?reset_eq, ?shutdown_eq,
      ?triggerEvent_eq, ?triggerEvent_data_eq, ?canTransition_eq,
      ?setStateChangeCallback_eq, ?setEventCallback_eq, ?logMessage_eq;
    try (destruct f; reflexivity).
  - destruct (triggerEventInternal_cases STOP_REQUEST "" f)
      as [(t & -> & _)|(to & t & _ & -> & _)]; destruct f; reflexivity.
  - destruct (triggerEventInternal_cases event "" f)
      as [(t & -> & _)|(to & t & _ & -> & _)]; destruct f; reflexivity.
  - destruct (triggerEventInternal_cases event data f)
      as [(t & -> & _)|(to & t & _ & -> & _)]; destruct f; reflexivity.
Qed.

Lemma trigger_cases_running b event f :
  trigger_cases event (set_running b f) =
  match trigger_cases event f with
  | (r, f1, t) => (r, set_running b f1, t)
  end.
Proof.
  unfold trigger_cases, gate_effects, state_change_effects, log_effect, commit.
  destruct f as [ts run cur prev tbl scb ecb lcb hot otd ep].
  cbn [set_running set_current_state set_previous_state thread_safe_ running_
       current_state_ previous_state_ transition_table_ state_change_callback_
       event_callbacks_ log_callback_ has_original_trajectory_
       original_trajectory_data_ execution_progress_].
  destruct (tbl !! cur) as [row|]; [|reflexivity].
  destruct (row !! event) as [to|]; [|reflexivity].
  destruct (ecb !! event) as [cb|]; [|reflexivity].
  destruct (invoke cb event) as [[|]|e]; reflexivity.
Qed.

(** X5. triggerEvent does not look at running_: on an engine that was shut
    down, or never started, an event is accepted, vetoed or refused exactly
    as on the running one, with the same effects and the same states. *)
Theorem triggerEvent_ignores_running (b : bool) (event : SystemEvent)
    (data : string) (f : Fsm) :
  outcome (triggerEvent_data event data (set_running b f))
    = outcome (triggerEvent_data event data f) /\
  effects (triggerEvent_data event data (set_running b f))
    = effects (triggerEvent_data event data f) /\
  engine_after (triggerEvent_data event data (set_running b f))
    = set_running b (engine_after (triggerEvent_data event data f)) /\
  outcome (triggerEvent event (engine_after (shutdown f)))
    = outcome (triggerEvent event f) /\
  current_state_ (engine_after (triggerEvent event (engine_after (shutdown f))))
    = current_state_ (engine_after (triggerEvent event f)).
Proof.
  assert (Hdown : engine_after (shutdown f) = set_running false f)
    by (rewrite shutdown_eq; reflexivity).
  rewrite Hdown, !triggerEvent_eq, !triggerEvent_data_eq,
    !triggerEventInternal_eq, !trigger_cases_running.
  destruct (trigger_cases event f) as [[r f1] t].
  unfold outcome, effects, engine_after; cbn [fst snd].
  repeat apply conj; reflexivity.
Qed.

Example events_after_shutdown :
  let f := engine_after (shutdown fresh) in
  running_ f = false /\
  outcome (triggerEvent START_MOVEIT f) = Ret true /\
  current_state_ (engine_after (triggerEvent START_MOVEIT f)) = MOVEIT_STARTING.
Proof. vm_compute. auto. Qed.

(** X6. shutdown is idempotent on the engine, touches neither
    current_state_ nor previous_state_, never invokes the state-change
    callback, and broadcasts once each time it is called. *)
Theorem shutdown_idempotent (f : Fsm) :
  engine_after (shutdown (engine_after (shutdown f)))
    = engine_after (shutdown f) /\
  current_state_ (engine_after (shutdown f)) = current_state_ f /\
  previous_state_ (engine_after (shutdown f)) = previous_state_ f /\
  running_ (engine_after (shutdown f)) = false /\
  state_change_calls (effects (shutdown f)) = [] /\
  wakes (effects (shutdown f)) = 1 /\
  wakes (effects (shutdown (engine_after (shutdown f)))) = 1.
Proof.
  rewrite !shutdown_eq. unfold engine_after, effects, log_effect; cbn [fst snd].
  destruct f as [ts run cur prev tbl scb ecb lcb hot otd ep]; cbn.
  destruct lcb; repeat apply conj; reflexivity.
Qed.

(** X7. initialize always returns true and forgets the past: both states
    are IDLE, the engine runs, the progress counter is zero, whatever they
    were; callbacks, log sink, mode and table are kept. It is idempotent,
    and a start right after it changes nothing. start alone keeps
    previous_state_ and the progress counter. *)
Theorem initialize_then_start (f : Fsm) :
  outcome (initialize f) = Ret true /\
  engine_after (initialize f) =
    set_execution_progress 0%N
      (set_running true (set_previous_state IDLE (set_current_state IDLE f))) /\
  engine_after (initialize (engine_after (initialize f)))
    = engine_after (initialize f) /\
  engine_after (start (engine_after (initialize f)))
    = engine_after (initialize f) /\
  previous_state_ (engine_after (start f)) = previous_state_ f /\
  execution_progress_ (engine_after (start f)) = execution_progress_ f.
Proof.
  rewrite !initialize_eq, !start_eq. unfold outcome, engine_after; cbn [fst snd].
  destruct f; repeat apply conj; reflexivity.
Qed.

End Running.

(** ** More on the blocking wait *)

Section WaitMore.

Lemma run_calls_app cs1 cs2 f :
  run_calls (cs1 ++ cs2)%list f =
  match run_calls cs1 f with
  | (f1, t1) =>
      match run_calls cs2 f1 with
      | (f2, t2) => (f2, (t1 ++ t2)%list)
      end
  end.
Proof.
  revert f. induction cs1 as [|c cs1 IH]; intros f; cbn [run_calls app].
  - destruct (run_calls cs2 f) as [f2 t2]. reflexivity.
  - destruct (exec_call c f) as [[r f1] t1]. rewrite IH.
    destruct (run_calls cs1 f1) as [f2 t2].
    destruct (run_calls cs2 f2) as [f3 t3]. rewrite app_assoc. reflexivity.
Qed.

Lemma calls_until_cons n w sched :
  calls_until (S n) (w :: sched) = (meanwhile w ++ calls_until n sched)%list.
Proof. reflexivity. Qed.

Lemma cv_wait_true pred sched f :
  pred f = true -> cv_wait pred sched f = Some (f, []).
Proof. intros H. destruct sched; cbn [cv_wait]; rewrite H; reflexivity. Qed.

Lemma cv_wait_for_true pred sched f :
  pred f = true -> cv_wait_for pred sched f = Some (true, f, []).
Proof. intros H. destruct sched; cbn [cv_wait_for]; rewrite H; reflexivity. Qed.

Lemma cv_wait_observer pred sched f f' t :
  cv_wait pred sched f = Some (f', t) ->
  exists n, n <= length sched /\ run_calls (calls_until n sched) f = (f', t).
Proof.
  revert f f' t. induction sched as [|w sched IH]; intros f f' t; cbn [cv_wait].
  - destruct (pred f); [|discriminate]. intros [= <- <-].
    exists 0. split; [lia|reflexivity].
  - destruct (pred f).
    + intros [= <- <-]. exists 0. split; [lia|reflexivity].
    + destruct (run_calls (meanwhile w) f) as [f1 t1] eqn:Hw.
      destruct (cv_wait pred sched f1) as [[f2 t2]|] eqn:Hrest; [|discriminate].
      intros [= <- <-]. destruct (IH _ _ _ Hrest) as (n & Hn & Hrun).
      exists (S n). split; [cbn [length]; lia|].
      rewrite calls_until_cons, run_calls_app, Hw, Hrun. reflexivity.
Qed.

Lemma cv_wait_for_observer pred sched f b f' t :
  cv_wait_for pred sched f = Some (b, f', t) ->
  exists n, n <= length sched /\ run_calls (calls_until n sched) f = (f', t).
Proof.
  revert f b f' t.
  induction sched as [|w sched IH]; intros f b f' t; cbn [cv_wait_for].
  - destruct (pred f); [|discriminate]. intros [= <- <- <-].
    exists 0. split; [lia|reflexivity].
  - destruct (pred f).
    + intros [= <- <- <-]. exists 0. split; [lia|reflexivity].
    + destruct (run_calls (meanwhile w) f) as [f1 t1] eqn:Hw.
      destruct (status w).
      * destruct (cv_wait_for pred sched f1) as [[[b2 f2] t2]|] eqn:Hrest;
          [|discriminate].
        intros [= <- <- <-]. destruct (IH _ _ _ _ Hrest) as (n & Hn & Hrun).
        exists (S n). split; [cbn [length]; lia|].
        rewrite calls_until_cons, run_calls_app, Hw, Hrun. reflexivity.
      * intros [= <- <- <-]. exists 1. split; [cbn [length]; lia|].
        rewrite calls_until_cons, run_calls_app, Hw.
        change (calls_until 0 sched) with (@nil call). cbn [run_calls].
        rewrite app_nil_r. reflexivity.
Qed.

(** X8. Without synchronized mode waitForState never parks the caller: for
    every target, timeout and schedule it returns false at once, leaves the
    engine alone and logs one line, even when the engine already is in the
    target state. *)
Theorem wait_needs_synchronization (target_state : SystemState) (timeout : Z)
    (sched : list wake) (f : Fsm) :
  thread_safe_ f = false ->
  waitForState target_state timeout sched f =
    Some (false, f,
          log_effect f "The wait state feature requires thread safety to be enabled") /\
  waitForState (current_state_ f) timeout [] f =
    Some (false, f,
          log_effect f "The wait state feature requires thread safety to be enabled").
Proof.
  intros Hsafe. split; apply waitForState_unsynchronized; exact Hsafe.
Qed.

Lemma wait_needs_synchronization_witness :
  waitForState PLANNING 0 [] fresh =
    Some (false, fresh,
          log_effect fresh "The wait state feature requires thread safety to be enabled") /\
  waitForState (current_state_ fresh) 0 [] fresh =
    Some (false, fresh,
          log_effect fresh "The wait state feature requires thread safety to be enabled").
Proof.
  apply (wait_needs_synchronization PLANNING 0 [] fresh). reflexivity.
Defined.

(** X9. In synchronized mode a wait for the state the engine is in returns
    true at once, whatever the timeout and whether or not the engine runs;
    it neither parks nor emits anything. *)
Theorem wait_in_target_returns_at_once (timeout : Z) (sched : list wake)
    (f : Fsm) :
  thread_safe_ f = true ->
  waitForState (current_state_ f) timeout sched f = Some (true, f, []).
Proof.
  intros Hsafe. apply waitForState_already_there; [exact Hsafe|reflexivity].
Qed.

Lemma wait_in_target_returns_at_once_witness :
  waitForState (current_state_ synchronized) 0 [] synchronized
    = Some (true, synchronized, []).
Proof.
  apply (wait_in_target_returns_at_once 0 [] synchronized). reflexivity.
Defined.

(** X10. With a positive timeout, a synchronized wait that ends returns
    true exactly when, at that moment, the engine is in the target state or
    is not running; so it returns false only when the deadline passed on a
    running engine that is somewhere else. *)
Theorem timed_wait_result (target_state : SystemState) (timeout : Z)
    (sched : list wake) (f f' : Fsm) (b : bool) (t : list effect) :
  thread_safe_ f = true ->
  (0 < timeout)%Z ->
  waitForState target_state timeout sched f = Some (b, f', t) ->
  (b = true <-> current_state_ f' = target_state \/ running_ f' = false) /\
  (b = false -> current_state_ f' <> target_state /\ running_ f' = true).
Proof.
  intros Hsafe Hpos Hw.
  assert (Hb : b = wait_pred target_state f').
  { revert Hw. unfold waitForState. rewrite Hsafe. cbn [negb].
    destruct (bool_decide (current_state_ f = target_state)) eqn:Hcur.
    - intros [= <- <- <-]. unfold wait_pred. rewrite Hcur. reflexivity.
    - apply Z.ltb_lt in Hpos. rewrite Hpos. apply cv_wait_for_result. }
  subst b. unfold wait_pred.
  destruct (bool_decide_reflect (current_state_ f' = target_state)) as [Heq|Hne],
    (running_ f'); cbn; split; try tauto; try (intros; discriminate);
    try (split; [intros; discriminate | intros [?|?]; [contradiction|discriminate]]).
Qed.

Lemma timed_wait_result_witness :
  (false = true <->
   current_state_ synchronized = PLANNING \/ running_ synchronized = false) /\
  (false = false ->
   current_state_ synchronized <> PLANNING /\ running_ synchronized = true).
Proof.
  apply (timed_wait_result PLANNING 50
           [{| meanwhile := []; status := cv_timeout |}]
           synchronized synchronized false []).
  - reflexivity.
  - lia.
  - reflexivity.
Defined.

(** X11. Without a timeout, a synchronized wait that ends returns whether
    the engine is in the target state; it ends with false only on an engine
    that is not running. *)
Theorem untimed_wait_result (target_state : SystemState) (timeout : Z)
    (sched : list wake) (f f' : Fsm) (b : bool) (t : list effect) :
  thread_safe_ f = true ->
  (timeout <= 0)%Z ->
  waitForState target_state timeout sched f = Some (b, f', t) ->
  (b = true <-> current_state_ f' = target_state) /\
  (b = false -> running_ f' = false).
Proof.
  intros Hsafe Hnon. unfold waitForState. rewrite Hsafe. cbn [negb].
  destruct (bool_decide (current_state_ f = target_state)) eqn:Hcur.
  - intros [= <- <- <-]. apply bool_decide_eq_true in Hcur.
    split; [tauto|discriminate].
  - apply Z.ltb_ge in Hnon. rewrite Hnon.
    destruct (cv_wait (wait_pred target_state) sched f) as [[f1 t1]|] eqn:Hw;
      [|discriminate].
    intros [= <- <- <-]. apply cv_wait_result in Hw. unfold wait_pred in Hw.
    split.
    + split; [apply bool_decide_eq_true_1 | apply bool_decide_eq_true_2].
    + intros Hb. rewrite Hb in Hw. cbn in Hw.
      destruct (running_ f1); [discriminate|reflexivity].
Qed.

Lemma untimed_wait_result_witness :
  (false = true <->
   current_state_ (set_running false synchronized) = PLANNING) /\
  (false = false -> running_ (set_running false synchronized) = false).
Proof.
  apply (untimed_wait_result PLANNING 0
           [{| meanwhile := [c_shutdown]; status := cv_no_timeout |}]
           synchronized (set_running false synchronized) false
           [ELog defaultLogCallback "关闭状态机"; ENotifyAll]).
  - reflexivity.
  - lia.
  - reflexivity.
Defined.

(** X12. On a synchronized engine that is not running, waitForState never
    parks: for every schedule, the empty one included, it returns at once
    with the engine untouched. The answer is true when the engine is in the
    target state or the timeout is positive, false otherwise. *)
Theorem wait_on_stopped_engine_never_parks (target_state : SystemState)
    (timeout : Z) (sched : list wake) (f : Fsm) :
  thread_safe_ f = true ->
  running_ f = false ->
  waitForState target_state timeout sched f =
    Some (bool_decide (current_state_ f = target_state) || (0 <? timeout)%Z,
          f, []).
Proof.
  intros Hsafe Hrun. unfold waitForState. rewrite Hsafe. cbn [negb].
  assert (Hpred : wait_pred target_state f = true)
    by (unfold wait_pred; rewrite Hrun; apply orb_true_r).
  destruct (bool_decide (current_state_ f = target_state)) eqn:Hcur;
    [reflexivity|].
  destruct (0 <? timeout)%Z.
  - rewrite (cv_wait_for_true _ _ _ Hpred). reflexivity.
  - rewrite (cv_wait_true _ _ _ Hpred), Hcur. reflexivity.
Qed.

Lemma wait_on_stopped_engine_never_parks_witness :
  waitForState PLANNING 0 [] (set_thread_safe true (Fsm_new false)) =
    Some (bool_decide (current_state_ (set_thread_safe true (Fsm_new false))
                       = PLANNING) || (0 <? 0)%Z,
          set_thread_safe true (Fsm_new false), []).
Proof.
  apply (wait_on_stopped_engine_never_parks PLANNING 0 []
           (set_thread_safe true (Fsm_new false))); reflexivity.
Defined.

(** X13. A synchronized wait changes nothing by itself: the engine it ends
    on, and the effects during it, are exactly those of the calls the other
    threads made up to one of its resumptions. *)
Theorem wait_is_an_observer (target_state : SystemState) (timeout : Z)
    (sched : list wake) (f f' : Fsm) (b : bool) (t : list effect) :
  thread_safe_ f = true ->
  waitForState target_state timeout sched f = Some (b, f', t) ->
  exists n, n <= length sched /\ run_calls (calls_until n sched) f = (f', t).
Proof.
  intros Hsafe. unfold waitForState. rewrite Hsafe. cbn [negb].
  destruct (bool_decide (current_state_ f = target_state)).
  - intros [= <- <- <-]. exists 0. split; [lia|reflexivity].
  - destruct (0 <? timeout)%Z.
    + apply cv_wait_for_observer.
    + destruct (cv_wait (wait_pred target_state) sched f) as [[f1 t1]|] eqn:Hw;
        [|discriminate].
      intros [= <- <- <-]. exact (cv_wait_observer _ _ _ _ _ Hw).
Qed.

Lemma wait_is_an_observer_witness :
  exists n,
    n <= length [{| meanwhile := [c_shutdown]; status := cv_no_timeout |}] /\
    run_calls
      (calls_until n [{| meanwhile := [c_shutdown]; status := cv_no_timeout |}])
      synchronized
    = (set_running false synchronized,
       [ELog defaultLogCallback "关闭状态机"; ENotifyAll]).
Proof.
  apply (wait_is_an_observer PLANNING 0
           [{| meanwhile := [c_shutdown]; status := cv_no_timeout |}]
           synchronized (set_running false synchronized) false
           [ELog defaultLogCallback "关闭状态机"; ENotifyAll]);
    reflexivity.
Defined.

(** X14. A thread parked on a running, synchronized engine that is resumed
    when the other threads have brought the engine to the target state gets
    true, with or without timeout, and also when what resumed it was the
    deadline. *)
Theorem wait_sees_target_on_resumption (target_state : SystemState)
    (timeout : Z) (w : wake) (rest : list wake) (f : Fsm) :
  thread_safe_ f = true ->
  running_ f = true ->
  current_state_ f <> target_state ->
  current_state_ (fst (run_calls (meanwhile w) f)) = target_state ->
  waitForState target_state timeout (w :: rest) f =
    Some (true, fst (run_calls (meanwhile w) f),
          snd (run_calls (meanwhile w) f)).
Proof.
  intros Hsafe Hrun Hne Hreached. unfold waitForState.
  rewrite Hsafe. cbn [negb].
  rewrite bool_decide_eq_false_2 by exact Hne.
  assert (Hpred : wait_pred target_state f = false)
    by (unfold wait_pred; rewrite Hrun, bool_decide_eq_false_2 by exact Hne;
        reflexivity).
  destruct (run_calls (meanwhile w) f) as [f1 t1] eqn:Hw. cbn [fst snd] in *.
  assert (Hpred1 : wait_pred target_state f1 = true)
    by (unfold wait_pred; rewrite bool_decide_eq_true_2 by exact Hreached;
        reflexivity).
  destruct (0 <? timeout)%Z.
  - cbn [cv_wait_for]. rewrite Hpred, Hw.
    destruct (status w).
    + rewrite (cv_wait_for_true _ _ _ Hpred1), app_nil_r. reflexivity.
    + rewrite Hpred1. reflexivity.
  - cbn [cv_wait]. rewrite Hpred, Hw, (cv_wait_true _ _ _ Hpred1), app_nil_r.
    rewrite bool_decide_eq_true_2 by exact Hreached. reflexivity.
Qed.

Lemma wait_sees_target_on_resumption_witness :
  waitForState MOVEIT_STARTING 200
    ({| meanwhile := [c_triggerEvent START_MOVEIT]; status := cv_timeout |} :: [])
    synchronized =
  Some (true,
        fst (run_calls [c_triggerEvent START_MOVEIT] synchronized),
        snd (run_calls [c_triggerEvent START_MOVEIT] synchronized)).
Proof.
  apply (wait_sees_target_on_resumption MOVEIT_STARTING 200
           {| meanwhile := [c_triggerEvent START_MOVEIT]; status := cv_timeout |}
           [] synchronized).
  - reflexivity.
  - reflexivity.
  - vm_compute. discriminate.
  - vm_compute. reflexivity.
Defined.

(** A state that is entered and left again while the thread is parked goes
    unseen: the wait is still parked when the schedule ends. *)
Example wait_misses_a_passing_state :
  waitForState MOVEIT_STARTING 0
    [{| meanwhile := [c_triggerEvent START_MOVEIT; c_triggerEvent MOVEIT_READY];
        status := cv_no_timeout |}]
    synchronized = None.
Proof. vm_compute. reflexivity. Qed.

End WaitMore.

(** ** Callback registration *)

Section Registration.

Lemma trigger_cases_callbacks m event f :
  m !! event = event_callbacks_ f !! event ->
  trigger_cases event (set_event_callbacks m f) =
  match trigger_cases event f with
  | (r, f1, t) => (r, set_event_callbacks m f1, t)
  end.
Proof.
  intros Hm.
  unfold trigger_cases, gate_effects, state_change_effects, log_effect, commit.
  destruct f as [ts run cur prev tbl scb ecb lcb hot otd ep].
  cbn [set_event_callbacks set_current_state set_previous_state thread_safe_
       running_ current_state_ previous_state_ transition_table_
       state_change_callback_ event_callbacks_ log_callback_
       has_original_trajectory_ original_trajectory_data_ execution_progress_]
    in *.
  rewrite Hm.
  destruct (tbl !! cur) as [row|]; [|reflexivity].
  destruct (row !! event) as [to|]; [|reflexivity].
  destruct (ecb !! event) as [cb|]; [|reflexivity].
  destruct (invoke cb event) as [[|]|e]; reflexivity.
Qed.

(** X15. setEventCallback gates one event only: after registering a
    callback for [event], raising any other event has the same outcome, the
    same effects and leads to the same states as before the registration. *)
Theorem setEventCallback_is_local (event other : SystemEvent)
    (callback : EventCallback) (data : string) (f : Fsm) :
  event <> other ->
  outcome (triggerEvent_data other data
             (engine_after (setEventCallback event callback f)))
    = outcome (triggerEvent_data other data f) /\
  effects (triggerEvent_data other data
             (engine_after (setEventCallback event callback f)))
    = effects (triggerEvent_data other data f) /\
  current_state_ (engine_after (triggerEvent_data other data
             (engine_after (setEventCallback event callback f))))
    = current_state_ (engine_after (triggerEvent_data other data f)) /\
  previous_state_ (engine_after (triggerEvent_data other data
             (engine_after (setEventCallback event callback f))))
    = previous_state_ (engine_after (triggerEvent_data other data f)).
Proof.
  intros Hne.
  assert (Hreg : engine_after (setEventCallback event callback f) =
                 set_event_callbacks (<[event := callback]> (event_callbacks_ f)) f)
    by (rewrite setEventCallback_eq; reflexivity).
  rewrite Hreg, !triggerEvent_data_eq, !triggerEventInternal_eq,
    trigger_cases_callbacks by (apply lookup_insert_ne; exact Hne).
  destruct (trigger_cases other f) as [[r f1] t].
  unfold outcome, effects, engine_after; cbn [fst snd].
  destruct f1; repeat apply conj; reflexivity.
Qed.

Lemma setEventCallback_is_local_witness :
  outcome (triggerEvent_data ERROR_OCCURRED ""
             (engine_after (setEventCallback START_MOVEIT veto fresh)))
    = outcome (triggerEvent_data ERROR_OCCURRED "" fresh) /\
  effects (triggerEvent_data ERROR_OCCURRED ""
             (engine_after (setEventCallback START_MOVEIT veto fresh)))
    = effects (triggerEvent_data ERROR_OCCURRED "" fresh) /\
  current_state_ (engine_after (triggerEvent_data ERROR_OCCURRED ""
             (engine_after (setEventCallback START_MOVEIT veto fresh))))
    = current_state_ (engine_after (triggerEvent_data ERROR_OCCURRED "" fresh)) /\
  previous_state_ (engine_after (triggerEvent_data ERROR_OCCURRED ""
             (engine_after (setEventCallback START_MOVEIT veto fresh))))
    = previous_state_ (engine_after (triggerEvent_data ERROR_OCCURRED "" fresh)).
Proof.
  apply (setEventCallback_is_local START_MOVEIT ERROR_OCCURRED veto "" fresh).
  discriminate.
Defined.

(** X16. Registrations overwrite: a second setEventCallback for the same
    event leaves the engine as if only the second had been made, and so
    does a second setStateChangeCallback; registrations for two different
    events give the same engine in either order. *)
Theorem registration_last_wins (f : Fsm) :
  (forall event cb1 cb2,
     engine_after (setEventCallback event cb2
                     (engine_after (setEventCallback event cb1 f)))
     = engine_after (setEventCallback event cb2 f)) /\
  (forall cb1 cb2,
     engine_after (setStateChangeCallback cb2
                     (engine_after (setStateChangeCallback cb1 f)))
     = engine_after (setStateChangeCallback cb2 f)) /\
  (forall e1 e2 cb1 cb2,
     e1 <> e2 ->
     engine_after (setEventCallback e2 cb2
                     (engine_after (setEventCallback e1 cb1 f)))
     = engine_after (setEventCallback e1 cb1
                       (engine_after (setEventCallback e2 cb2 f)))).
Proof.
  repeat apply conj.
  - intros event cb1 cb2. rewrite !setEventCallback_eq.
    unfold engine_after; cbn [fst snd]. destruct f; cbn.
    rewrite insert_insert_eq. reflexivity.
  - intros cb1 cb2. rewrite !setStateChangeCallback_eq.
    unfold engine_after; cbn [fst snd]. destruct f; reflexivity.
  - intros e1 e2 cb1 cb2 Hne. rewrite !setEventCallback_eq.
    unfold engine_after; cbn [fst snd]. destruct f; cbn.
    rewrite insert_insert_ne by (intros H; apply Hne; symmetry; exact H).
    reflexivity.
Qed.

Lemma registration_last_wins_witness :
  engine_after (setEventCallback STOP_REQUEST veto
                  (engine_after (setEventCallback START_MOVEIT faulty_gate fresh)))
  = engine_after (setEventCallback START_MOVEIT faulty_gate
                    (engine_after (setEventCallback STOP_REQUEST veto fresh))).
Proof.
  apply (proj2 (proj2 (registration_last_wins fresh))). discriminate.
Defined.

(** X17. With an empty log sink installed no public call hands a line to
    any sink, whatever it does otherwise. *)
Theorem empty_log_sink_is_silent (c : call) (f : Fsm) :
  log_callback_ f = None ->
  log_lines (effects (exec_call c f)) = [].
Proof.
  intros Hnone.
  assert (Hlog : forall message, log_effect f message = [])
    by (intros message; unfold log_effect; rewrite Hnone; reflexivity).
  assert (Htrig : forall event data,
            log_lines (effects (triggerEventInternal event data f)) = []).
  { intros event data. rewrite triggerEventInternal_eq.
    unfold trigger_cases, gate_effects, state_change_effects.
    destruct (transition_table_ f !! current_state_ f) as [row|];
      [|rewrite Hlog; reflexivity].
    destruct (row !! event) as [to|]; [|rewrite Hlog; reflexivity].
    destruct (event_callbacks_ f !! event) as [[g|]|];
      try destruct (invoke _ event) as [[|]|e];
      destruct (state_change_callback_ f) as [h|];
      try destruct (h (current_state_ f) to) as [[]|x];
      rewrite ?Hlog; reflexivity. }
  destruct c; unfold exec_call; unfold bind at 1;
    rewrite ?initialize_eq, ?start_eq, ?stop_eq, ?reset_eq, ?shutdown_eq,
      ?triggerEvent_eq, ?triggerEvent_data_eq, ?canTransition_eq,
      ?setStateChangeCallback_eq, ?setEventCallback_eq, ?logMessage_eq;
    rewrite ?Hlog; try reflexivity.
  - pose proof (Htrig STOP_REQUEST "") as H.
    destruct (triggerEventInternal STOP_REQUEST "" f) as [[r f1] t].
    unfold effects in *; cbn in *. rewrite app_nil_r. exact H.
  - unfold state_change_effects.
    destruct (state_change_callback_ f) as [h|];
      try destruct (h (current_state_ f) IDLE) as [[]|x];
      rewrite ?Hlog; reflexivity.
  - pose proof (Htrig event "") as H.
    destruct (triggerEventInternal event "" f) as [[[b|x] f1] t];
      unfold effects in *; cbn in *; rewrite ?app_nil_r; exact H.
  - pose proof (Htrig event data) as H.
    destruct (triggerEventInternal event data f) as [[[b|x] f1] t];
      unfold effects in *; cbn in *; rewrite ?app_nil_r; exact H.
Qed.

Lemma empty_log_sink_is_silent_witness :
  log_lines (effects (exec_call (c_triggerEvent STOP_REQUEST)
                        (set_log_callback None fresh))) = [].
Proof.
  apply (empty_log_sink_is_silent (c_triggerEvent STOP_REQUEST)
           (set_log_callback None fresh)).
  reflexivity.
Defined.

(** X18. The table is asked before the gate: a gating callback is invoked,
    exactly once, only when the event has an entry for the current state
    and a non-empty callback is registered for it; an event the table
    refuses never reaches user code. *)
Theorem gate_is_consulted_after_table (event : SystemEvent) (data : string)
    (f : Fsm) :
  event_callback_calls (effects (triggerEvent_data event data f)) =
  match table_find (transition_table_ f) (current_state_ f) event,
        event_callbacks_ f !! event with
  | Some _, Some (Some _) => [event]
  | _, _ => []
  end.
Proof.
  rewrite triggerEvent_data_eq, triggerEventInternal_eq.
  unfold trigger_cases, table_find, gate_effects, state_change_effects,
    log_effect, invoke, effects.
  destruct (transition_table_ f !! current_state_ f) as [row|];
    [|destruct (log_callback_ f); reflexivity].
  destruct (row !! event) as [to|];
    [|destruct (log_callback_ f); reflexivity].
  destruct (event_callbacks_ f !! event) as [[g|]|];
    try destruct (g event) as [[|]|e];
    destruct (log_callback_ f) as [sink|],
      (state_change_callback_ f) as [h|];
    try destruct (h (current_state_ f) to) as [[]|x]; reflexivity.
Qed.

End Registration.


(** ** Walks through the table *)

Section Walks.

Lemma commit_plain s to f : plain_in s f -> plain_in to (commit to f).
Proof.
  intros (Htable & Hgates & _). destruct f; cbn in *.
  repeat apply conj; [exact Htable|exact Hgates|reflexivity].
Qed.

Lemma run_calls_trigger event rest s to f :
  plain_in s f ->
  table_find the_table s event = Some to ->
  fst (run_calls (c_triggerEvent event :: rest) f)
  = fst (run_calls rest (commit to f)).
Proof.
  intros (Htable & Hgates & Hcur) Hfind. cbn [run_calls].
  unfold exec_call; unfold bind at 1.
  rewrite triggerEvent_eq, (triggerEventInternal_commit event "" f to).
  - cbn. destruct (run_calls rest (commit to f)). reflexivity.
  - rewrite Htable, Hcur. exact Hfind.
  - unfold gate_open. rewrite Hgates, lookup_empty. exact I.
Qed.

Lemma walk_from_idle s f :
  plain_in IDLE f ->
  current_state_ (fst (run_calls (map c_triggerEvent (walk_to s)) f)) = s.
Proof.
  intros Hf. destruct s; cbn [walk_to map].
  - destruct Hf as (_ & _ & Hcur). exact Hcur.
  - rewrite (run_calls_trigger _ _ IDLE MOVEIT_STARTING f Hf) by (vm_compute; reflexivity).
    destruct f; reflexivity.
  - pose proof (commit_plain _ MOVEIT_STARTING _ Hf) as H1.
    rewrite (run_calls_trigger _ _ IDLE MOVEIT_STARTING f Hf) by (vm_compute; reflexivity).
    rewrite (run_calls_trigger _ _ MOVEIT_STARTING PLANNING _ H1) by (vm_compute; reflexivity).
    destruct f; reflexivity.
  - pose proof (commit_plain _ MOVEIT_STARTING _ Hf) as H1.
    pose proof (commit_plain _ PLANNING _ H1) as H2.
    rewrite (run_calls_trigger _ _ IDLE MOVEIT_STARTING f Hf) by (vm_compute; reflexivity).
    rewrite (run_calls_trigger _ _ MOVEIT_STARTING PLANNING _ H1) by (vm_compute; reflexivity).
    rewrite (run_calls_trigger _ _ PLANNING EXECUTING _ H2) by (vm_compute; reflexivity).
    destruct f; reflexivity.
  - pose proof (commit_plain _ MOVEIT_STARTING _ Hf) as H1.
    pose proof (commit_plain _ PLANNING _ H1) as H2.
    rewrite (run_calls_trigger _ _ IDLE MOVEIT_STARTING f Hf) by (vm_compute; reflexivity).
    rewrite (run_calls_trigger _ _ MOVEIT_STARTING PLANNING _ H1) by (vm_compute; reflexivity).
    rewrite (run_calls_trigger _ _ PLANNING OBSTACLE_DETECTED _ H2) by (vm_compute; reflexivity).
    destruct f; reflexivity.
  - rewrite (run_calls_trigger _ _ IDLE ERROR f Hf) by (vm_compute; reflexivity).
    destruct f; reflexivity.
Qed.

(** X19. stop does bring the engine to IDLE from every other state: with
    the gate of STOP_REQUEST open, the transition is committed,
    previous_state_ is the state stop was called in, and the waiters are
    woken once. *)
Theorem stop_from_active_state (f : Fsm) :
  transition_table_ f = the_table ->
  current_state_ f <> IDLE ->
  gate_open f STOP_REQUEST ->
  outcome (stop f) = Ret tt /\
  engine_after (stop f) = commit IDLE f /\
  current_state_ (engine_after (stop f)) = IDLE /\
  previous_state_ (engine_after (stop f)) = current_state_ f /\
  wakes (effects (stop f)) = 1.
Proof.
  intros Htable Hne Hgate.
  assert (Hfind : table_find (transition_table_ f) (current_state_ f) STOP_REQUEST
                  = Some IDLE).
  { rewrite Htable, the_table_is_spec_table.
    destruct (current_state_ f); [contradiction|reflexivity..]. }
  rewrite stop_eq, (triggerEventInternal_commit _ _ _ _ Hfind Hgate).
  unfold outcome, engine_after, effects; cbn [fst snd].
  repeat apply conj; try reflexivity; try (destruct f; reflexivity).
  unfold gate_effects, state_change_effects, log_effect.
  destruct (event_callbacks_ f !! STOP_REQUEST) as [[g|]|],
    (log_callback_ f) as [sink|], (state_change_callback_ f) as [h|];
    try destruct (h (current_state_ f) IDLE) as [[]|x]; reflexivity.
Qed.

Lemma stop_from_active_state_witness :
  outcome (stop (in_state EXECUTING)) = Ret tt /\
  engine_after (stop (in_state EXECUTING)) = commit IDLE (in_state EXECUTING) /\
  current_state_ (engine_after (stop (in_state EXECUTING))) = IDLE /\
  previous_state_ (engine_after (stop (in_state EXECUTING)))
    = current_state_ (in_state EXECUTING) /\
  wakes (effects (stop (in_state EXECUTING))) = 1.
Proof.
  apply (stop_from_active_state (in_state EXECUTING)).
  - reflexivity.
  - vm_compute. discriminate.
  - vm_compute. exact I.
Defined.

(** X20. No state is out of reach: on an engine without gating callbacks,
    whatever state it is in, reset followed by at most three events brings
    it to any state asked for. *)
Theorem any_state_from_anywhere (f : Fsm) (s : SystemState) :
  transition_table_ f = the_table ->
  event_callbacks_ f = ∅ ->
  current_state_
    (fst (run_calls (c_reset :: map c_triggerEvent (walk_to s)) f)) = s /\
  length (walk_to s) <= 3.
Proof.
  intros Htable Hgates. split; [|destruct s; cbn; lia].
  assert (Hidle : plain_in IDLE (commit IDLE f)).
  { apply (commit_plain (current_state_ f)). repeat apply conj; auto. }
  pose proof (walk_from_idle s _ Hidle) as Hwalk.
  cbn [run_calls]. unfold exec_call; unfold bind at 1. rewrite reset_eq.
  cbn [ret]. 
  destruct (run_calls (map c_triggerEvent (walk_to s)) (commit IDLE f))
    as [f2 t2]. exact Hwalk.
Qed.

Lemma any_state_from_anywhere_witness :
  current_state_
    (fst (run_calls (c_reset :: map c_triggerEvent (walk_to OBSTACLE_DETECTED))
            (in_state ERROR))) = OBSTACLE_DETECTED /\
  length (walk_to OBSTACLE_DETECTED) <= 3.
Proof.
  apply (any_state_from_anywhere (in_state ERROR) OBSTACLE_DETECTED);
    reflexivity.
Defined.

(** X21. Into and out of ERROR: ERROR_OCCURRED, with its gate open, takes
    the engine to ERROR from every other state; in ERROR the only events
    that are ever committed are RESET_REQUEST and STOP_REQUEST, and both
    lead to IDLE. *)
Theorem error_state_entry_and_exit (f : Fsm) :
  transition_table_ f = the_table ->
  (current_state_ f <> ERROR ->
   gate_open f ERROR_OCCURRED ->
   outcome (triggerEvent ERROR_OCCURRED f) = Ret true /\
   current_state_ (engine_after (triggerEvent ERROR_OCCURRED f)) = ERROR) /\
  (current_state_ f = ERROR ->
   forall event data,
     outcome (triggerEvent_data event data f) = Ret true ->
     (event = RESET_REQUEST \/ event = STOP_REQUEST) /\
     current_state_ (engine_after (triggerEvent_data event data f)) = IDLE).
Proof.
  intros Htable. split.
  - intros Hne Hgate.
    assert (Hfind : table_find (transition_table_ f) (current_state_ f)
                      ERROR_OCCURRED = Some ERROR).
    { rewrite Htable, the_table_is_spec_table.
      destruct (current_state_ f); [reflexivity..|contradiction]. }
    rewrite triggerEvent_eq, (triggerEventInternal_commit _ _ _ _ Hfind Hgate).
    unfold outcome, engine_after; cbn [fst snd].
    split; [reflexivity|destruct f; reflexivity].
  - intros Herr event data. rewrite triggerEvent_data_eq.
    destruct (triggerEventInternal_cases event data f)
      as [(t & -> & _)|(to & t & Hfind & -> & _)];
      unfold outcome, engine_after; cbn [fst snd]; [discriminate|].
    intros _. rewrite Htable, Herr, the_table_is_spec_table in Hfind.
    destruct event; cbn in Hfind; try discriminate;
      injection Hfind as <-; (split; [auto|destruct f; reflexivity]).
Qed.

Lemma error_state_entry_and_exit_witness :
  outcome (triggerEvent ERROR_OCCURRED (in_state PLANNING)) = Ret true /\
  current_state_ (engine_after (triggerEvent ERROR_OCCURRED (in_state PLANNING)))
    = ERROR.
Proof.
  apply (proj1 (error_state_entry_and_exit (in_state PLANNING) eq_refl)).
  - vm_compute. discriminate.
  - vm_compute. exact I.
Defined.

(** X22. reset is not the RESET_REQUEST event. In IDLE and in ERROR, with
    the gate open, raising RESET_REQUEST leaves the engine exactly as reset
    does; in every other state RESET_REQUEST is refused and changes
    nothing, while reset still forces IDLE. *)
Theorem reset_versus_reset_request (f : Fsm) :
  transition_table_ f = the_table ->
  gate_open f RESET_REQUEST ->
  (current_state_ f = IDLE \/ current_state_ f = ERROR ->
   outcome (triggerEvent RESET_REQUEST f) = Ret true /\
   engine_after (triggerEvent RESET_REQUEST f) = engine_after (reset f)) /\
  (current_state_ f <> IDLE /\ current_state_ f <> ERROR ->
   outcome (triggerEvent RESET_REQUEST f) = Ret false /\
   engine_after (triggerEvent RESET_REQUEST f) = f /\
   current_state_ (engine_after (reset f)) = IDLE /\
   engine_after (reset f) <> f).
Proof.
  intros Htable Hgate. rewrite triggerEvent_eq, reset_eq.
  unfold outcome, engine_after; cbn [fst snd]. split.
  - intros Hcur.
    assert (Hfind : table_find (transition_table_ f) (current_state_ f)
                      RESET_REQUEST = Some IDLE).
    { rewrite Htable, the_table_is_spec_table.
      destruct Hcur as [-> | ->]; reflexivity. }
    rewrite (triggerEventInternal_commit _ _ _ _ Hfind Hgate).
    split; reflexivity.
  - intros [Hidle Herr].
    assert (Hfind : table_find (transition_table_ f) (current_state_ f)
                      RESET_REQUEST = None).
    { rewrite Htable, the_table_is_spec_table.
      destruct (current_state_ f); try reflexivity; contradiction. }
    destruct (triggerEventInternal_miss RESET_REQUEST "" f Hfind) as [message ->].
    cbn [fst snd]. repeat apply conj; try reflexivity.
    intros Heq. apply Hidle. rewrite <- Heq. destruct f; reflexivity.
Qed.

Lemma reset_versus_reset_request_witness :
  outcome (triggerEvent RESET_REQUEST (in_state EXECUTING)) = Ret false /\
  engine_after (triggerEvent RESET_REQUEST (in_state EXECUTING))
    = in_state EXECUTING /\
  current_state_ (engine_after (reset (in_state EXECUTING))) = IDLE /\
  engine_after (reset (in_state EXECUTING)) <> in_state EXECUTING.
Proof.
  apply (proj2 (reset_versus_reset_request (in_state EXECUTING) eq_refl
                  ltac:(vm_compute; exact I))).
  split; vm_compute; discriminate.
Defined.

End Walks.


(** ** Acceptance and logging, in general *)

Section General.

Lemma sinks_used_app t1 t2 :
  sinks_used (t1 ++ t2)%list = (sinks_used t1 ++ sinks_used t2)%list.
Proof.
  induction t1 as [|[] t1 IH]; cbn; rewrite ?IH; reflexivity.
Qed.

Lemma sinks_used_log f message s :
  In s (sinks_used (log_effect f message)) -> log_callback_ f = Some s.
Proof.
  unfold log_effect. destruct (log_callback_ f) as [sink|]; cbn; [|tauto].
  intros [->|[]]. reflexivity.
Qed.

Lemma sinks_used_state_change f old_state new_state s :
  In s (sinks_used (state_change_effects f old_state new_state)) ->
  log_callback_ f = Some s.
Proof.
  unfold state_change_effects.
  destruct (state_change_callback_ f) as [h|]; cbn; [|tauto].
  destruct (h old_state new_state) as [[]|x]; cbn; [tauto|].
  apply sinks_used_log.
Qed.

Lemma sinks_used_gate f event : sinks_used (gate_effects f event) = [].
Proof.
  unfold gate_effects. destruct (event_callbacks_ f !! event) as [[g|]|];
    reflexivity.
Qed.

Lemma sinks_used_trigger event data f s :
  In s (sinks_used (effects (triggerEventInternal event data f))) ->
  log_callback_ f = Some s.
Proof.
  rewrite triggerEventInternal_eq. unfold trigger_cases, effects.
  destruct (transition_table_ f !! current_state_ f) as [row|]; cbn [snd];
    [|apply sinks_used_log].
  destruct (row !! event) as [to|]; cbn [snd]; [|apply sinks_used_log].
  assert (Hcommit : In s (sinks_used
            (gate_effects f event
             ++ log_effect f ("状态转换: " ++ stateToString (current_state_ f)
                              ++ " -> " ++ stateToString to)
             ++ state_change_effects f (current_state_ f) to ++ [ENotifyAll])%list) ->
          log_callback_ f = Some s).
  { rewrite !sinks_used_app, sinks_used_gate. cbn [app].
    rewrite !in_app_iff. intros [H|[H|H]].
    - exact (sinks_used_log _ _ _ H).
    - exact (sinks_used_state_change _ _ _ _ H).
    - destruct H. }
  destruct (event_callbacks_ f !! event) as [cb|]; cbn [snd]; [|exact Hcommit].
  destruct (invoke cb event) as [[|]|e]; cbn [snd]; [exact Hcommit| |];
    rewrite sinks_used_app, sinks_used_gate; apply sinks_used_log.
Qed.

(** X24. A line is only ever handed to the sink that is installed when the
    call is made. setLogCallback itself hands no line to any sink, old or
    new, and emits nothing else; it installs its argument, and from then
    on every line of every public call goes to that sink: once the default
    sink has been replaced, nothing is written to it any more. *)
Theorem lines_go_to_the_installed_sink (c : call) (f : Fsm)
    (callback : LogCallback) :
  (forall s, In s (sinks_used (effects (exec_call c f))) ->
             log_callback_ f = Some s) /\
  effects (setLogCallback callback f) = [] /\
  engine_after (setLogCallback callback f) = set_log_callback callback f /\
  (forall s,
     In s (sinks_used
             (effects (exec_call c (engine_after (setLogCallback callback f))))) ->
     callback = Some s).
Proof.
  assert (Hcall : forall g s, In s (sinks_used (effects (exec_call c g))) ->
                              log_callback_ g = Some s).
  { intros g s.
    destruct c; unfold exec_call; unfold bind at 1;
      rewrite ?initialize_eq, ?start_eq, ?stop_eq, ?reset_eq, ?shutdown_eq,
        ?triggerEvent_eq, ?triggerEvent_data_eq, ?canTransition_eq,
        ?setStateChangeCallback_eq, ?setEventCallback_eq, ?logMessage_eq;
      unfold effects; cbn [snd ret]; rewrite ?app_nil_r;
      try apply sinks_used_log; try (cbn; tauto).
    - pose proof (sinks_used_trigger STOP_REQUEST "" g s) as H.
      destruct (triggerEventInternal STOP_REQUEST "" g) as [[r f1] t].
      unfold effects in H. cbn in *. rewrite app_nil_r. exact H.
    - rewrite !sinks_used_app, !in_app_iff. intros [H|[H|H]].
      + exact (sinks_used_log _ _ _ H).
      + exact (sinks_used_state_change _ _ _ _ H).
      + destruct H.
    - rewrite sinks_used_app, in_app_iff. intros [H|H].
      + exact (sinks_used_log _ _ _ H).
      + destruct H.
    - pose proof (sinks_used_trigger event "" g s) as H.
      destruct (triggerEventInternal event "" g) as [[[b|x] f1] t];
        unfold effects in H; cbn in *; rewrite ?app_nil_r; exact H.
    - pose proof (sinks_used_trigger event data g s) as H.
      destruct (triggerEventInternal event data g) as [[[b|x] f1] t];
        unfold effects in H; cbn in *; rewrite ?app_nil_r; exact H. }
  repeat apply conj.
  - apply Hcall.
  - reflexivity.
  - reflexivity.
  - intros s Hin. apply Hcall in Hin. destruct f; exact Hin.
Qed.

Lemma lines_go_to_the_installed_sink_witness :
  Some (userLogCallback 7) = Some (userLogCallback 7).
Proof.
  apply (proj2 (proj2 (proj2
           (lines_go_to_the_installed_sink c_reset fresh
              (Some (userLogCallback 7)))))).
  vm_compute. left. reflexivity.
Defined.

Example replaced_sink_gets_nothing :
  sinks_used
    (snd (run_calls [c_setLogCallback (Some (userLogCallback 7));
                     c_triggerEvent START_MOVEIT; c_reset; c_shutdown]
            fresh))
  = [userLogCallback 7; userLogCallback 7; userLogCallback 7].
Proof. vm_compute. reflexivity. Qed.

End General.


(** ** Faults of callbacks, with callables that may throw anything *)

Section Unwound.

Import Unwinding.

Ltac ustep :=
  unfold Unwinding.bind, Unwinding.try_catch, Unwinding.get,
    Unwinding.modify, Unwinding.ret, Unwinding.emit, Unwinding.throw,
    Unwinding.notify_all;
  cbv beta iota.

Lemma quiet_logMessage message f :
  sink_quiet f ->
  logMessage message f = (returned tt, f, log_effect f message).
Proof.
  intros Hquiet. unfold logMessage, log_effect, call_sink; ustep.
  destruct (log_callback_ f) as [sink|] eqn:Hsink; [|reflexivity].
  rewrite (Hquiet sink Hsink). reflexivity.
Qed.

Lemma logMessage_engine message f :
  engine_after (logMessage message f) = f.
Proof.
  unfold logMessage, call_sink, engine_after; ustep.
  destruct (log_callback_ f) as [sink|]; [|reflexivity].
  destruct (accept sink message); reflexivity.
Qed.

Lemma commit_quiet to f : sink_quiet f -> sink_quiet (commit to f).
Proof. intros H. destruct f. exact H. Qed.

Lemma isValidTransition_valid from to event f :
  table_find (transition_table_ f) from event = Some to ->
  isValidTransition from to event f = (returned true, f, []).
Proof.
  unfold table_find, isValidTransition; ustep.
  destruct (transition_table_ f !! from) as [row|]; [|discriminate].
  intros H. rewrite H. rewrite bool_decide_eq_true_2 by reflexivity.
  reflexivity.
Qed.

Lemma quiet_onStateChanged old_state new_state f :
  sink_quiet f ->
  onStateChanged old_state new_state f =
  match state_change_callback_ f with
  | None => (returned tt, f, [ENotifyAll])
  | Some cb =>
      match cb old_state new_state with
      | returned _ =>
          (returned tt, f,
           [EStateChangeCallback old_state new_state; ENotifyAll])
      | raised (std_object e) =>
          (returned tt, f,
           (EStateChangeCallback old_state new_state
            :: log_effect f ("状态变化回调异常: " ++ what e)
            ++ [ENotifyAll])%list)
      | raised (other_object v) =>
          (raised (other_object v), f,
           [EStateChangeCallback old_state new_state])
      end
  end.
Proof.
  intros Hquiet. unfold onStateChanged, call_state_change; ustep.
  destruct (state_change_callback_ f) as [cb|]; [|reflexivity].
  destruct (cb old_state new_state) as [[]|[e|v]]; try reflexivity.
  rewrite (quiet_logMessage _ _ Hquiet). reflexivity.
Qed.

Lemma quiet_executeTransition from to event f :
  table_find (transition_table_ f) from event = Some to ->
  sink_quiet f ->
  executeTransition from to event f =
  match onStateChanged (current_state_ f) to (commit to f) with
  | (returned _, f2, t2) =>
      (returned true, f2,
       (log_effect f ("状态转换: " ++ stateToString from ++ " -> "
                      ++ stateToString to) ++ t2)%list)
  | (raised x, f2, t2) =>
      (raised x, f2,
       (log_effect f ("状态转换: " ++ stateToString from ++ " -> "
                      ++ stateToString to) ++ t2)%list)
  end.
Proof.
  intros Hfind Hquiet. unfold executeTransition.
  unfold Unwinding.bind at 1. rewrite (isValidTransition_valid _ _ _ _ Hfind).
  cbn [negb]. ustep.
  rewrite (quiet_logMessage _ _ (commit_quiet to f Hquiet)).
  change (set_current_state to (set_previous_state (current_state_ f) f))
    with (commit to f).
  assert (Hprev : previous_state_ (commit to f) = current_state_ f)
    by (destruct f; reflexivity).
  assert (Hcur : current_state_ (commit to f) = to)
    by (destruct f; reflexivity).
  rewrite Hprev, Hcur.
  assert (Hlog : forall m, log_effect (commit to f) m = log_effect f m)
    by (intros m; destruct f; reflexivity).
  rewrite Hlog.
  destruct (onStateChanged (current_state_ f) to (commit to f))
    as [[[[]|x] f2] t2]; cbn; rewrite ?app_nil_r; reflexivity.
Qed.

(** The transition is committed before anything that can fail is called:
    whatever the sink and the observer do, the engine is left committed. *)
Lemma executeTransition_engine from to event f :
  table_find (transition_table_ f) from event = Some to ->
  engine_after (executeTransition from to event f) = commit to f.
Proof.
  intros Hfind. unfold executeTransition.
  unfold Unwinding.bind at 1. rewrite (isValidTransition_valid _ _ _ _ Hfind).
  cbn [negb]. unfold onStateChanged, logMessage, call_sink, call_state_change,
    engine_after; ustep.
  clear Hfind.
  destruct f as [ts run cur prev tbl scb ecb lcb hot otd ep].
  destruct lcb as [sink|], scb as [cb|]; cbn;
    repeat first
      [ reflexivity
      | match goal with
        | |- context [accept ?s ?m] => destruct (accept s m) as [[]|?]
        | |- context [cb cur to] => destruct (cb cur to) as [[]|[?|?]]
        end ].
Qed.

Lemma quiet_trigger_miss event data f :
  table_find (transition_table_ f) (current_state_ f) event = None ->
  sink_quiet f ->
  exists message,
    triggerEventInternal event data f = (returned false, f, log_effect f message).
Proof.
  intros Hfind Hquiet. revert Hfind.
  unfold table_find, triggerEventInternal, getCurrentStateNameInternal; ustep.
  destruct (transition_table_ f !! current_state_ f) as [row|].
  - intros ->. rewrite (quiet_logMessage _ _ Hquiet). eexists. cbn.
    rewrite app_nil_r. reflexivity.
  - intros _. rewrite (quiet_logMessage _ _ Hquiet). eexists. cbn.
    rewrite app_nil_r. reflexivity.
Qed.

Lemma trigger_without_gate event data f to :
  table_find (transition_table_ f) (current_state_ f) event = Some to ->
  event_callbacks_ f !! event = None ->
  triggerEventInternal event data f =
  executeTransition (current_state_ f) to event f.
Proof.
  unfold table_find, triggerEventInternal; ustep.
  destruct (transition_table_ f !! current_state_ f) as [row|]; [|discriminate].
  intros Hto Hgate. rewrite Hto, Hgate.
  destruct (executeTransition (current_state_ f) to event f) as [[r f2] t2].
  reflexivity.
Qed.

Lemma trigger_gate_true event data f to cb :
  table_find (transition_table_ f) (current_state_ f) event = Some to ->
  event_callbacks_ f !! event = Some cb ->
  invoke cb event = returned true ->
  triggerEventInternal event data f =
  match executeTransition (current_state_ f) to event f with
  | (r, f2, t2) => (r, f2, EEventCallback event :: t2)
  end.
Proof.
  unfold table_find, triggerEventInternal, invoke, call_event_callback; ustep.
  destruct (transition_table_ f !! current_state_ f) as [row|]; [|discriminate].
  intros Hto Hgate Hinv. rewrite Hto, Hgate.
  destruct cb as [g|]; [|discriminate]. ustep. rewrite Hinv. cbn [negb]. ustep.
  destruct (executeTransition (current_state_ f) to event f) as [[r f2] t2].
  reflexivity.
Qed.

Lemma quiet_trigger_no_row event data f :
  transition_table_ f !! current_state_ f = None ->
  sink_quiet f ->
  triggerEventInternal event data f =
  (returned false, f,
   log_effect f ("未找到状态 " ++ stateToString (current_state_ f)
                 ++ " 的转换表")).
Proof.
  intros Hrow Hquiet.
  unfold triggerEventInternal, getCurrentStateNameInternal; ustep.
  rewrite Hrow, (quiet_logMessage _ _ Hquiet). cbn. rewrite app_nil_r.
  reflexivity.
Qed.

Lemma quiet_trigger_unsupported event data f row :
  transition_table_ f !! current_state_ f = Some row ->
  row !! event = None ->
  sink_quiet f ->
  triggerEventInternal event data f =
  (returned false, f,
   log_effect f ("状态 " ++ stateToString (current_state_ f)
                 ++ " 不支持事件 " ++ eventToString event)).
Proof.
  intros Hrow Hevent Hquiet.
  unfold triggerEventInternal, getCurrentStateNameInternal; ustep.
  rewrite Hrow, Hevent, (quiet_logMessage _ _ Hquiet). cbn.
  rewrite app_nil_r. reflexivity.
Qed.

Lemma quiet_trigger_gate event data f to g :
  table_find (transition_table_ f) (current_state_ f) event = Some to ->
  event_callbacks_ f !! event = Some (Some g) ->
  sink_quiet f ->
  triggerEventInternal event data f =
  match g event with
  | returned true =>
      match executeTransition (current_state_ f) to event f with
      | (r, f2, t2) => (r, f2, EEventCallback event :: t2)
      end
  | returned false =>
      (returned false, f,
       EEventCallback event
       :: log_effect f ("Event callbacks failed: " ++ eventToString event))
  | raised (std_object e) =>
      (returned false, f,
       EEventCallback event
       :: log_effect f ("Event callbacks are abnormal: " ++ what e))
  | raised (other_object v) =>
      (raised (other_object v), f, [EEventCallback event])
  end.
Proof.
  intros Hfind Hgate Hquiet.
  destruct (g event) as [[|]|[e|v]] eqn:Hg.
  - apply (trigger_gate_true _ _ _ _ (Some g)); assumption.
  - revert Hfind. unfold table_find, triggerEventInternal, call_event_callback;
      ustep.
    destruct (transition_table_ f !! current_state_ f) as [row|]; [|discriminate].
    intros Hto. rewrite Hto, Hgate. ustep. rewrite Hg. cbn [negb]. ustep.
    rewrite (quiet_logMessage _ _ Hquiet). cbn. rewrite ?app_nil_r.
    reflexivity.
  - revert Hfind. unfold table_find, triggerEventInternal, call_event_callback;
      ustep.
    destruct (transition_table_ f !! current_state_ f) as [row|]; [|discriminate].
    intros Hto. rewrite Hto, Hgate. ustep. rewrite Hg.
    rewrite (quiet_logMessage _ _ Hquiet). cbn. rewrite ?app_nil_r.
    reflexivity.
  - revert Hfind. unfold table_find, triggerEventInternal, call_event_callback;
      ustep.
    destruct (transition_table_ f !! current_state_ f) as [row|]; [|discriminate].
    intros Hto. rewrite Hto, Hgate. ustep. rewrite Hg. reflexivity.
Qed.

Lemma quiet_trigger_empty_gate event data f to :
  table_find (transition_table_ f) (current_state_ f) event = Some to ->
  event_callbacks_ f !! event = Some None ->
  sink_quiet f ->
  triggerEventInternal event data f =
  (returned false, f,
   log_effect f ("Event callbacks are abnormal: " ++ what bad_function_call)).
Proof.
  intros Hfind Hgate Hquiet. revert Hfind.
  unfold table_find, triggerEventInternal, call_event_callback; ustep.
  destruct (transition_table_ f !! current_state_ f) as [row|]; [|discriminate].
  intros Hto. rewrite Hto, Hgate. ustep.
  rewrite (quiet_logMessage _ _ Hquiet). cbn. rewrite ?app_nil_r.
  reflexivity.
Qed.

Lemma quiet_trigger_gate_shut event data f to cb :
  table_find (transition_table_ f) (current_state_ f) event = Some to ->
  event_callbacks_ f !! event = Some cb ->
  sink_quiet f ->
  match invoke cb event with
  | returned true => True
  | returned false =>
      exists t, triggerEventInternal event data f = (returned false, f, t)
                /\ notifications t = []
  | raised (std_object e) =>
      exists t, triggerEventInternal event data f = (returned false, f, t)
                /\ notifications t = []
  | raised (other_object v) =>
      exists t, triggerEventInternal event data f
                = (raised (other_object v), f, t)
                /\ notifications t = []
  end.
Proof.
  intros Hfind Hgate Hquiet. revert Hfind.
  unfold table_find, triggerEventInternal, invoke, call_event_callback; ustep.
  destruct (transition_table_ f !! current_state_ f) as [row|]; [|discriminate].
  intros Hto. rewrite Hto, Hgate.
  assert (Hlog : forall m, notifications (log_effect f m) = [])
    by (intros m; unfold log_effect; destruct (log_callback_ f); reflexivity).
  destruct cb as [g|]; ustep.
  - destruct (g event) as [[|]|[e|v]]; cbn [negb]; ustep; [exact I| | |].
    + rewrite (quiet_logMessage _ _ Hquiet). eexists. split; [reflexivity|].
      cbn. rewrite ?app_nil_r. apply Hlog.
    + rewrite (quiet_logMessage _ _ Hquiet). eexists. split; [reflexivity|].
      cbn. rewrite ?app_nil_r. apply Hlog.
    + eexists. split; reflexivity.
  - rewrite (quiet_logMessage _ _ Hquiet). eexists. split; [reflexivity|].
    cbn. rewrite ?app_nil_r. apply Hlog.
Qed.

Lemma trigger_gate_other event data f to cb v :
  table_find (transition_table_ f) (current_state_ f) event = Some to ->
  event_callbacks_ f !! event = Some cb ->
  invoke cb event = raised (other_object v) ->
  triggerEventInternal event data f
  = (raised (other_object v), f, [EEventCallback event]).
Proof.
  unfold table_find, triggerEventInternal, invoke, call_event_callback; ustep.
  destruct (transition_table_ f !! current_state_ f) as [row|]; [|discriminate].
  intros Hto Hgate Hinv. rewrite Hto, Hgate.
  destruct cb as [g|]; [|discriminate]. ustep. rewrite Hinv. reflexivity.
Qed.

(** C5, as the code has it. When the table lists the event for the current
    state and a gating callback is registered for it, then: if the callback
    returns false or raises an object of the std::exception family (an
    empty function object raises std::bad_function_call) and the log sink
    returns, triggerEvent returns false, the engine, current_state_ and
    previous_state_ included, is as before, and nothing is notified; if
    the callback raises an object of any other type, that object leaves
    triggerEvent, whatever the sink, the engine again as before. *)
Theorem gate_veto_or_std_fault_refuses (f : Fsm) (event : SystemEvent)
    (data : string) (target : SystemState)
    (cb : std_function (SystemEvent -> ended bool)) :
  transition_table_ f = the_table ->
  table_find the_table (current_state_ f) event = Some target ->
  event_callbacks_ f !! event = Some cb ->
  (sink_quiet f ->
   invoke cb event = returned false \/
   (exists e, invoke cb event = raised (std_object e)) ->
   outcome (triggerEvent_data event data f) = returned false /\
   engine_after (triggerEvent_data event data f) = f /\
   current_state_ (engine_after (triggerEvent_data event data f))
     = current_state_ f /\
   previous_state_ (engine_after (triggerEvent_data event data f))
     = previous_state_ f /\
   notifications (effects (triggerEvent_data event data f)) = []) /\
  (forall v,
     invoke cb event = raised (other_object v) ->
     outcome (triggerEvent_data event data f) = raised (other_object v) /\
     engine_after (triggerEvent_data event data f) = f /\
     notifications (effects (triggerEvent_data event data f)) = []).
Proof.
  intros Htable Hfind Hgate. rewrite <- Htable in Hfind.
  unfold triggerEvent_data. split.
  - intros Hquiet Hcases.
    pose proof (quiet_trigger_gate_shut event data f target cb Hfind Hgate
                  Hquiet) as Hshut.
    destruct Hcases as [Hinv|[e Hinv]]; rewrite Hinv in Hshut;
      destruct Hshut as (t & -> & Hnone);
      unfold outcome, engine_after, effects; cbn [fst snd]; auto.
  - intros v Hinv.
    rewrite (trigger_gate_other _ _ _ _ _ _ Hfind Hgate Hinv).
    unfold outcome, engine_after, effects; cbn [fst snd]. auto.
Qed.

Lemma gate_veto_or_std_fault_refuses_witness :
  let f := engine IDLE {[START_MOVEIT := throws_runtime_error]} None
             (Some console) in
  outcome (triggerEvent_data START_MOVEIT "" f) = returned false /\
  engine_after (triggerEvent_data START_MOVEIT "" f) = f /\
  current_state_ (engine_after (triggerEvent_data START_MOVEIT "" f))
    = current_state_ f /\
  previous_state_ (engine_after (triggerEvent_data START_MOVEIT "" f))
    = previous_state_ f /\
  notifications (effects (triggerEvent_data START_MOVEIT "" f)) = [].
Proof.
  intros f.
  apply (proj1 (gate_veto_or_std_fault_refuses f START_MOVEIT ""
                  MOVEIT_STARTING throws_runtime_error
                  eq_refl
                  ltac:(vm_compute; reflexivity)
                  ltac:(vm_compute; reflexivity))).
  - intros sink [= <-] message. reflexivity.
  - right. eexists. reflexivity.
Defined.

(** C5, refuted as stated. The table lists (IDLE, START_MOVEIT); a gating
    callback is registered for START_MOVEIT and raises when triggerEvent
    invokes it. With [throw 42] the object is not of the type the handler
    names: it leaves triggerEvent, which therefore does not return false.
    With a std::runtime_error and a sink that raises on the line the
    handler logs, the sink's exception leaves triggerEvent. *)
Lemma gate_fault_escapes :
  let thrower := engine IDLE {[START_MOVEIT := throws_42]} None
                   (Some console) in
  let unlogged := engine IDLE {[START_MOVEIT := throws_runtime_error]} None
                    (Some broken_sink) in
  transition_table_ thrower = the_table /\
  table_find the_table (current_state_ thrower) START_MOVEIT
    = Some MOVEIT_STARTING /\
  event_callbacks_ thrower !! START_MOVEIT = Some throws_42 /\
  invoke throws_42 START_MOVEIT = raised (other_object 42) /\
  outcome (triggerEvent START_MOVEIT thrower) = raised (other_object 42) /\
  outcome (triggerEvent START_MOVEIT thrower) <> returned false /\
  event_callbacks_ unlogged !! START_MOVEIT = Some throws_runtime_error /\
  invoke throws_runtime_error START_MOVEIT
    = raised (std_object {| what := "gate fault" |}) /\
  outcome (triggerEvent START_MOVEIT unlogged)
    = raised (std_object {| what := "sink failure" |}) /\
  outcome (triggerEvent START_MOVEIT unlogged) <> returned false.
Proof.
  cbv zeta. repeat apply conj; try reflexivity;
    try (vm_compute; reflexivity); vm_compute; discriminate.
Qed.

Lemma trigger_gate_open event data f to :
  table_find (transition_table_ f) (current_state_ f) event = Some to ->
  gate_open f event ->
  exists pre,
    triggerEventInternal event data f =
    match executeTransition (current_state_ f) to event f with
    | (r, f2, t2) => (r, f2, (pre ++ t2)%list)
    end /\
    notifications pre = [] /\ state_change_calls pre = [] /\ wakes pre = 0.
Proof.
  intros Hfind Hopen. unfold gate_open in Hopen.
  destruct (event_callbacks_ f !! event) as [cb|] eqn:Hgate.
  - exists [EEventCallback event].
    rewrite (trigger_gate_true _ _ _ _ _ Hfind Hgate Hopen).
    destruct (executeTransition (current_state_ f) to event f) as [[r f2] t2].
    repeat apply conj; reflexivity.
  - exists []. rewrite (trigger_without_gate _ _ _ _ Hfind Hgate).
    destruct (executeTransition (current_state_ f) to event f) as [[r f2] t2].
    repeat apply conj; reflexivity.
Qed.

Lemma filter_notifications_app t1 t2 :
  notifications (t1 ++ t2)%list = (notifications t1 ++ notifications t2)%list.
Proof. unfold notifications. apply List.filter_app. Qed.

Lemma state_change_calls_app t1 t2 :
  state_change_calls (t1 ++ t2)%list
  = (state_change_calls t1 ++ state_change_calls t2)%list.
Proof. induction t1 as [|[] t1 IH]; cbn; rewrite ?IH; reflexivity. Qed.

Lemma wakes_app t1 t2 : wakes (t1 ++ t2)%list = wakes t1 + wakes t2.
Proof. induction t1 as [|[] t1 IH]; cbn; rewrite ?IH; reflexivity. Qed.

Lemma log_effect_quiet_trace f message :
  state_change_calls (log_effect f message) = [] /\
  wakes (log_effect f message) = 0.
Proof. unfold log_effect. destruct (log_callback_ f); split; reflexivity. Qed.

(** C6, as the code has it. For an event the table lists, with the gate
    open: the transition is committed before the observer runs and is never
    rolled back, whatever the observer or the sink raise. If the
    state-change callback raises an object of the std::exception family
    and the log sink returns, the object is caught: triggerEvent returns
    true, the callback was invoked once with (old, new) and the waiters
    are woken once. If it raises an object of any other type, that object
    leaves triggerEvent after the commit, and the waiters are not woken. *)
Theorem observer_std_fault_is_contained (f : Fsm) (event : SystemEvent)
    (data : string) (target : SystemState) :
  transition_table_ f = the_table ->
  table_find the_table (current_state_ f) event = Some target ->
  gate_open f event ->
  (current_state_ (engine_after (triggerEvent_data event data f)) = target /\
   previous_state_ (engine_after (triggerEvent_data event data f))
     = current_state_ f) /\
  (forall cb e,
     sink_quiet f ->
     state_change_callback_ f = Some cb ->
     cb (current_state_ f) target = raised (std_object e) ->
     outcome (triggerEvent_data event data f) = returned true /\
     state_change_calls (effects (triggerEvent_data event data f))
       = [(current_state_ f, target)] /\
     wakes (effects (triggerEvent_data event data f)) = 1) /\
  (forall cb v,
     sink_quiet f ->
     state_change_callback_ f = Some cb ->
     cb (current_state_ f) target = raised (other_object v) ->
     outcome (triggerEvent_data event data f) = raised (other_object v) /\
     state_change_calls (effects (triggerEvent_data event data f))
       = [(current_state_ f, target)] /\
     wakes (effects (triggerEvent_data event data f)) = 0).
Proof.
  intros Htable Hfind Hopen. rewrite <- Htable in Hfind.
  destruct (trigger_gate_open event data f target Hfind Hopen)
    as (pre & Heq & Hpre_n & Hpre_c & Hpre_w).
  unfold triggerEvent_data. rewrite Heq.
  assert (Hobs : forall cb, state_change_callback_ f = Some cb ->
            state_change_callback_ (commit target f) = Some cb)
    by (intros cb H; destruct f; exact H).
  assert (Hlogc : forall m, log_effect (commit target f) m = log_effect f m)
    by (intros m; destruct f; reflexivity).
  repeat apply conj.
  - pose proof (executeTransition_engine _ _ _ _ Hfind) as Heng.
    destruct (executeTransition (current_state_ f) target event f)
      as [[r f2] t2]. unfold engine_after in *; cbn [fst snd] in *.
    subst f2. destruct f; reflexivity.
  - pose proof (executeTransition_engine _ _ _ _ Hfind) as Heng.
    destruct (executeTransition (current_state_ f) target event f)
      as [[r f2] t2]. unfold engine_after in *; cbn [fst snd] in *.
    subst f2. destruct f; reflexivity.
  - intros cb e Hquiet Hcb Hraise.
    rewrite (quiet_executeTransition _ _ _ _ Hfind Hquiet),
      (quiet_onStateChanged _ _ _ (commit_quiet target f Hquiet)),
      (Hobs cb Hcb), Hraise, Hlogc.
    unfold outcome, effects; cbn [fst snd].
    destruct (log_effect_quiet_trace f
                ("状态转换: " ++ stateToString (current_state_ f) ++ " -> "
                 ++ stateToString target)) as [Hc1 Hw1].
    destruct (log_effect_quiet_trace f ("状态变化回调异常: " ++ what e))
      as [Hc2 Hw2].
    repeat apply conj.
    + reflexivity.
    + rewrite !state_change_calls_app, Hpre_c, Hc1. cbn.
      rewrite state_change_calls_app, Hc2. reflexivity.
    + rewrite !wakes_app, Hpre_w, Hw1. cbn. rewrite wakes_app, Hw2.
      reflexivity.
  - intros cb v Hquiet Hcb Hraise.
    rewrite (quiet_executeTransition _ _ _ _ Hfind Hquiet),
      (quiet_onStateChanged _ _ _ (commit_quiet target f Hquiet)),
      (Hobs cb Hcb), Hraise.
    unfold outcome, effects; cbn [fst snd].
    destruct (log_effect_quiet_trace f
                ("状态转换: " ++ stateToString (current_state_ f) ++ " -> "
                 ++ stateToString target)) as [Hc1 Hw1].
    repeat apply conj.
    + reflexivity.
    + rewrite !state_change_calls_app, Hpre_c, Hc1. reflexivity.
    + rewrite !wakes_app, Hpre_w, Hw1. reflexivity.
Qed.

Lemma observer_std_fault_is_contained_witness :
  let f := engine IDLE ∅ observer_throws_runtime_error (Some console) in
  outcome (triggerEvent_data START_MOVEIT "" f) = returned true /\
  state_change_calls (effects (triggerEvent_data START_MOVEIT "" f))
    = [(current_state_ f, MOVEIT_STARTING)] /\
  wakes (effects (triggerEvent_data START_MOVEIT "" f)) = 1.
Proof.
  intros f.
  apply (proj1 (proj2 (observer_std_fault_is_contained f START_MOVEIT ""
                         MOVEIT_STARTING eq_refl
                         ltac:(vm_compute; reflexivity)
                         ltac:(vm_compute; exact I)))
           (fun _ _ => raised (std_object {| what := "observer fault" |}))
           {| what := "observer fault" |}).
  - intros sink [= <-] message. reflexivity.
  - reflexivity.
  - reflexivity.
Defined.

(** C6, refuted as stated. The observer raises during the committed
    transition (IDLE, START_MOVEIT) -> MOVEIT_STARTING. With [throw 7] the
    handler in onStateChanged does not match: the object leaves
    triggerEvent, so the call does not return success, and notify_all is
    skipped; the states stay committed. *)
Lemma observer_fault_escapes :
  let f := engine IDLE ∅ observer_throws_7 (Some console) in
  transition_table_ f = the_table /\
  table_find the_table (current_state_ f) START_MOVEIT = Some MOVEIT_STARTING /\
  state_change_callback_ f = observer_throws_7 /\
  outcome (triggerEvent START_MOVEIT f) = raised (other_object 7) /\
  outcome (triggerEvent START_MOVEIT f) <> returned true /\
  current_state_ (engine_after (triggerEvent START_MOVEIT f)) = MOVEIT_STARTING /\
  previous_state_ (engine_after (triggerEvent START_MOVEIT f)) = IDLE /\
  effects (triggerEvent START_MOVEIT f) =
    [ELog defaultLogCallback "状态转换: IDLE -> MOVEIT_STARTING";
     EStateChangeCallback IDLE MOVEIT_STARTING].
Proof.
  cbv zeta. repeat apply conj; try reflexivity;
    try (vm_compute; reflexivity); vm_compute; discriminate.
Qed.

Lemma quiet_onStateChanged_outcome old_state new_state f x :
  sink_quiet f ->
  outcome (onStateChanged old_state new_state f) = raised x ->
  exists v, x = other_object v.
Proof.
  intros Hquiet. rewrite (quiet_onStateChanged _ _ _ Hquiet).
  destruct (state_change_callback_ f) as [cb|]; [|discriminate].
  destruct (cb old_state new_state) as [[]|[e|v]]; try discriminate.
  intros [= <-]. eauto.
Qed.

Lemma quiet_executeTransition_outcome from to event f x :
  table_find (transition_table_ f) from event = Some to ->
  sink_quiet f ->
  outcome (executeTransition from to event f) = raised x ->
  exists v, x = other_object v.
Proof.
  intros Hfind Hquiet. rewrite (quiet_executeTransition _ _ _ _ Hfind Hquiet).
  pose proof (quiet_onStateChanged_outcome (current_state_ f) to (commit to f))
    as Hobs.
  destruct (onStateChanged (current_state_ f) to (commit to f))
    as [[[[]|y] f2] t2]; [discriminate|].
  intros [= <-]. apply Hobs; [apply commit_quiet; exact Hquiet|reflexivity].
Qed.

Lemma quiet_trigger_outcome event data f x :
  sink_quiet f ->
  outcome (triggerEventInternal event data f) = raised x ->
  exists v, x = other_object v.
Proof.
  intros Hquiet.
  destruct (table_find (transition_table_ f) (current_state_ f) event)
    as [to|] eqn:Hfind.
  - pose proof (quiet_executeTransition_outcome (current_state_ f) to event f)
      as Hexec.
    destruct (event_callbacks_ f !! event) as [cb|] eqn:Hgate.
    + pose proof (quiet_trigger_gate_shut event data f to cb Hfind Hgate Hquiet)
        as Hshut.
      destruct (invoke cb event) as [[|]|[e|v]] eqn:Hinv.
      * rewrite (trigger_gate_true _ _ _ _ _ Hfind Hgate Hinv).
        destruct (executeTransition (current_state_ f) to event f)
          as [[r f2] t2]. intros H. exact (Hexec x Hfind Hquiet H).
      * destruct Hshut as (t & -> & _). discriminate.
      * destruct Hshut as (t & -> & _). discriminate.
      * destruct Hshut as (t & -> & _). intros [= <-]. eauto.
    + rewrite (trigger_without_gate _ _ _ _ Hfind Hgate).
      intros H. exact (Hexec x Hfind Hquiet H).
  - destruct (quiet_trigger_miss event data f Hfind Hquiet) as [message ->].
    discriminate.
Qed.

(** X3. When the log sink returns, nothing of the std::exception family
    leaves triggerEvent, stop or reset: what a gating callback or the
    state-change callback raises of that family is caught inside; the only
    objects that can come out are of other types. *)
Theorem std_faults_never_escape (f : Fsm) :
  sink_quiet f ->
  (forall event data x,
     outcome (triggerEvent_data event data f) = raised x ->
     exists v, x = other_object v) /\
  (forall x, outcome (stop f) = raised x -> exists v, x = other_object v) /\
  (forall x, outcome (reset f) = raised x -> exists v, x = other_object v).
Proof.
  intros Hquiet. repeat apply conj.
  - intros event data x. apply quiet_trigger_outcome. exact Hquiet.
  - intros x. unfold stop, triggerEvent, triggerEvent_data. ustep.
    pose proof (quiet_trigger_outcome STOP_REQUEST "" f) as H.
    destruct (triggerEventInternal STOP_REQUEST "" f) as [[[b|y] f1] t1];
      [discriminate|].
    intros [= <-]. apply H; [exact Hquiet|reflexivity].
  - intros x. unfold reset. ustep.
    rewrite (quiet_logMessage _ _ Hquiet).
    change (set_current_state IDLE (set_previous_state (current_state_ f) f))
      with (commit IDLE f).
    pose proof (quiet_onStateChanged_outcome
                  (previous_state_ (commit IDLE f))
                  (current_state_ (commit IDLE f)) (commit IDLE f)) as H.
    destruct (onStateChanged (previous_state_ (commit IDLE f))
                (current_state_ (commit IDLE f)) (commit IDLE f))
      as [[[[]|y] f2] t2]; [discriminate|].
    intros [= <-]. apply H; [apply commit_quiet; exact Hquiet|reflexivity].
Qed.

Lemma std_faults_never_escape_witness :
  exists v, other_object 42 = other_object v.
Proof.
  apply (proj1 (std_faults_never_escape
                  (engine IDLE {[START_MOVEIT := throws_42]} None (Some console))
                  ltac:(intros sink [= <-] message; reflexivity))
           START_MOVEIT "").
  vm_compute. reflexivity.
Defined.

End Unwound.

(** ** The two embeddings side by side *)

Section Agreement.

Lemma lift_quiet f : Unwinding.sink_quiet (lift f).
Proof.
  intros sink H message. unfold lift in H. cbn in H.
  destruct (log_callback_ f) as [id|]; [|discriminate].
  injection H as <-. reflexivity.
Qed.

Lemma lift_log_effect f message :
  Unwinding.log_effect (lift f) message = log_effect f message.
Proof.
  unfold Unwinding.log_effect, log_effect, lift. cbn.
  destruct (log_callback_ f); reflexivity.
Qed.

Lemma lift_commit to f : Unwinding.commit to (lift f) = lift (commit to f).
Proof. destruct f; reflexivity. Qed.

Lemma lifted_onStateChanged old_state new_state f :
  Unwinding.onStateChanged old_state new_state (lift f) =
  (Unwinding.returned tt, lift f,
   (state_change_effects f old_state new_state ++ [ENotifyAll])%list).
Proof.
  rewrite (quiet_onStateChanged _ _ _ (lift_quiet f)).
  unfold state_change_effects.
  change (Unwinding.state_change_callback_ (lift f))
    with (option_map (fun cb o n => lift_ended (cb o n))
            (state_change_callback_ f)).
  destruct (state_change_callback_ f) as [cb|]; cbn [option_map]; [|reflexivity].
  destruct (cb old_state new_state) as [[]|e]; cbn [lift_ended];
    rewrite ?lift_log_effect; reflexivity.
Qed.

Lemma lifted_executeTransition to event f :
  table_find (transition_table_ f) (current_state_ f) event = Some to ->
  Unwinding.executeTransition (current_state_ f) to event (lift f) =
  (Unwinding.returned true, lift (commit to f),
   (log_effect f ("状态转换: " ++ stateToString (current_state_ f) ++ " -> "
                  ++ stateToString to)
    ++ state_change_effects f (current_state_ f) to ++ [ENotifyAll])%list).
Proof.
  intros Hfind.
  rewrite (quiet_executeTransition _ _ _ (lift f) Hfind (lift_quiet f)).
  change (Unwinding.current_state_ (lift f)) with (current_state_ f).
  rewrite lift_commit, lifted_onStateChanged, lift_log_effect.
  assert (H : state_change_effects (commit to f) (current_state_ f) to
              = state_change_effects f (current_state_ f) to)
    by (destruct f; reflexivity).
  rewrite H. reflexivity.
Qed.

(** On callbacks that raise only objects of the std::exception family and
    a sink that takes every line, the second embedding does what the first
    does: same result, same engine, same effects, for every attempt to
    raise an event and for reset. *)
Lemma embeddings_agree event data f :
  Unwinding.triggerEventInternal event data (lift f)
    = lift_run (triggerEventInternal event data f) /\
  Unwinding.reset (lift f) = lift_run (reset f).
Proof.
  split.
  - rewrite triggerEventInternal_eq.
    unfold trigger_cases, lift_run, outcome, engine_after, effects.
    destruct (transition_table_ f !! current_state_ f) as [row|] eqn:Hrow.
    + destruct (row !! event) as [to|] eqn:Hto.
      * assert (Hfind : table_find (transition_table_ f) (current_state_ f) event
                        = Some to) by (unfold table_find; rewrite Hrow; exact Hto).
        assert (Hgates : Unwinding.event_callbacks_ (lift f) !! event
                         = lift_gate <$> (event_callbacks_ f !! event))
          by apply lookup_fmap.
        unfold gate_effects.
        destruct (event_callbacks_ f !! event) as [[g|]|] eqn:Hcb;
          cbn in Hgates.
        -- rewrite (quiet_trigger_gate event data (lift f) to _ Hfind Hgates
                      (lift_quiet f)).
           unfold invoke.
           destruct (g event) as [[|]|e]; cbn [lift_ended fst snd];
             rewrite ?lift_log_effect; try reflexivity.
           change (Unwinding.current_state_ (lift f)) with (current_state_ f).
           rewrite (lifted_executeTransition _ _ _ Hfind). reflexivity.
        -- rewrite (quiet_trigger_empty_gate event data (lift f) to Hfind Hgates
                      (lift_quiet f)), lift_log_effect.
           reflexivity.
        -- rewrite (trigger_without_gate event data (lift f) to Hfind
                      Hgates).
           change (Unwinding.current_state_ (lift f)) with (current_state_ f).
           rewrite (lifted_executeTransition _ _ _ Hfind). reflexivity.
      * rewrite (quiet_trigger_unsupported event data (lift f) row Hrow Hto
                   (lift_quiet f)), lift_log_effect.
        reflexivity.
    + rewrite (quiet_trigger_no_row event data (lift f) Hrow (lift_quiet f)),
        lift_log_effect.
      reflexivity.
  - rewrite reset_eq. unfold lift_run, outcome, engine_after, effects.
    cbn [fst snd lift_ended].
    unfold Unwinding.reset, Unwinding.bind, Unwinding.modify, Unwinding.get.
    cbv beta iota.
    rewrite (quiet_logMessage _ _ (lift_quiet f)), lift_log_effect.
    change (Unwinding.set_current_state IDLE
              (Unwinding.set_previous_state
                 (Unwinding.current_state_ (lift f)) (lift f)))
      with (Unwinding.commit IDLE (lift f)).
    rewrite lift_commit, lifted_onStateChanged.
    assert (H : state_change_effects (commit IDLE f)
                  (Unwinding.previous_state_ (lift (commit IDLE f)))
                  (Unwinding.current_state_ (lift (commit IDLE f)))
                = state_change_effects f (current_state_ f) IDLE)
      by (destruct f; reflexivity).
    rewrite H. cbn. rewrite ?app_nil_r. reflexivity.
Qed.

End Agreement.
